(** * VLASS_Tools: the cutout extractor of [local_cutouts.py]

    A shallow embedding of [make_multiple_cutouts] from the image data on
    (lines 25 and 37-78 of [src/local_cutouts.py]) and the properties of its
    natural-language specification.

    Modelling conventions.
    - Python integers are unbounded: [Z].
    - A pixel coordinate is a float: either a finite value, carried by the
      rational it denotes (every finite binary float is a rational, and
      [round] works on the exact value), or one of the three non-finite
      values.
    - A 2D NumPy array is a list of rows together with its column count, so
      that arrays with zero rows keep their second dimension. A sample of
      the image is a float or an integer, as the file stores it; the cutout
      is a float64 array, and a sample stored into it is cast to float64.
    - [np.squeeze] keeps the samples and drops every entry 1 from the shape;
      the image is taken with its two image axes, the further axes of
      length 1 that a file may carry being dropped all the same.
    - Basic slicing produces a view: an offset and a shape inside the base
      array. Assigning to a view of the cutout updates the cutout itself.
    - Exceptions are values of an error monad; every element access of the
      copy is checked against the bounds of the array it touches.

    Reading the image file, the projection of sky coordinates to pixels
    and the plotting of lines 83-108 are outside the model: the model starts
    from the image data as read (line 21) and the projected pixel
    coordinates (line 34). *)

From Stdlib Require Import Ascii ZArith QArith Qround Qabs Lqa Lia.
From stdpp Require Import base tactics option list strings sorting.

Local Open Scope Z_scope.

(** ** Python values and exceptions *)

Inductive pyfloat : Type :=
  | Fin (q : Q)
  | PosInf
  | NegInf
  | NaN.

Inductive exn : Type :=
  | ValueError
  | OverflowError
  | IndexError.

Inductive result (A : Type) : Type :=
  | Ok (a : A)
  | Raise (e : exn).

Arguments Ok {A} a.
Arguments Raise {A} e.

#[global] Instance result_ret : MRet result := @Ok.
#[global] Instance result_bind : MBind result :=
  λ A B f m, match m with Ok a => f a | Raise e => Raise e end.
#[global] Instance result_fmap : FMap result :=
  λ A B f m, match m with Ok a => Ok (f a) | Raise e => Raise e end.

Definition is_finite (x : pyfloat) : bool :=
  match x with Fin _ => true | _ => false end.

(** ** [round] and [int]

    [round(x)] with one argument rounds a float to the nearest integer and
    breaks ties towards the even one; it raises [ValueError] on NaN and
    [OverflowError] on an infinity. The result is already an integer, which
    [int] leaves unchanged. *)

Definition round_half_even (q : Q) : Z :=
  let f := Qfloor q in
  match (q - inject_Z f ?= 1 # 2)%Q with
  | Lt => f
  | Gt => f + 1
  | Eq => if Z.even f then f else f + 1
  end.

Definition py_round (x : pyfloat) : result Z :=
  match x with
  | Fin q => Ok (round_half_even q)
  | NaN => Raise ValueError
  | PosInf | NegInf => Raise OverflowError
  end.

Definition py_int (n : Z) : Z := n.

(** ** Samples

    A sample of an image is a float or an integer. A float is a float64
    value already (a float32 is one as well). An integer is cast to the
    nearest float64, ties going to the even one: integers up to 2^53 in
    magnitude are kept, larger ones lose their low bits. The integers of an
    image have at most 64 bits, far below the largest float64. *)

Inductive sample : Type :=
  | SFloat (x : pyfloat)
  | SInt (z : Z).

(** The integer that the float64 nearest to [z] denotes. *)
Definition int_to_float64 (z : Z) : Z :=
  let m := Z.abs z in
  if m <? 2 ^ 53 then z
  else
    let e := Z.log2 m - 52 in
    let q := m `div` 2 ^ e in
    let r := m `mod` 2 ^ e in
    let half := 2 ^ (e - 1) in
    let q' := if (half <? r) || ((r =? half) && Z.odd q) then q + 1 else q in
    Z.sgn z * (q' * 2 ^ e).

(** [v.astype(float64)] *)
Definition as_float64 (v : sample) : pyfloat :=
  match v with
  | SFloat x => x
  | SInt z => Fin (inject_Z (int_to_float64 z))
  end.

(** ** Arrays *)

Record ndarray : Type := NDArray { data : list (list sample); ncols : nat }.

Definition shape0 (a : ndarray) : Z := Z.of_nat (length (data a)).
Definition shape1 (a : ndarray) : Z := Z.of_nat (ncols a).

Definition wf_ndarray (a : ndarray) : Prop :=
  Forall (λ row, length row = ncols a) (data a).

(** [np.full((n, m), v)] for a float [v]: a float64 array; negative
    dimensions are refused. *)
Definition np_full (n m : Z) (v : pyfloat) : result ndarray :=
  if (n <? 0) || (m <? 0) then Raise ValueError
  else Ok (NDArray (replicate (Z.to_nat n) (replicate (Z.to_nat m) (SFloat v)))
             (Z.to_nat m)).

Definition in_bounds (a : ndarray) (p : Z * Z) : bool :=
  (0 <=? p.1) && (p.1 <? shape0 a) && (0 <=? p.2) && (p.2 <? shape1 a).

(** The element at row [p.1], column [p.2], if there is one. *)
Definition lookup2 (a : ndarray) (p : Z * Z) : option sample :=
  if in_bounds a p then data a !! Z.to_nat p.1 ≫= (.!! Z.to_nat p.2) else None.

(** Element accesses of the copy loop, with their bounds checked. *)
Definition load (a : ndarray) (p : Z * Z) : result sample :=
  match lookup2 a p with
  | Some v => Ok v
  | None => Raise IndexError
  end.

(** A store into a float64 array, which the cutout is: the value is cast. *)
Definition store (a : ndarray) (p : Z * Z) (v : sample) : result ndarray :=
  if in_bounds a p
  then Ok (NDArray (alter (<[Z.to_nat p.2 := SFloat (as_float64 v)]>)
                      (Z.to_nat p.1) (data a)) (ncols a))
  else Raise IndexError.

(** ** [np.squeeze]

    Line 25 drops every axis of length 1: the samples stay, the shape loses
    its entries equal to 1. An image with a row or a column count of 1 is
    left with fewer than two axes. *)

Record squeezed : Type := Squeezed { shape : list Z; samples : ndarray }.

Definition np_squeeze (array : ndarray) : squeezed :=
  Squeezed (filter (λ n, n ≠ 1) [shape0 array; shape1 array]) array.

(** [array.shape[k]]: an index past the end of the shape is an error. *)
Definition shape_at (array : squeezed) (k : nat) : result Z :=
  match shape array !! k with
  | Some n => Ok n
  | None => Raise IndexError
  end.

(** ** Slices and views *)

Record view : Type := View { r0 : Z; nr : Z; c0 : Z; nc : Z }.

Definition whole (a : ndarray) : view := View 0 (shape0 a) 0 (shape1 a).

(** One bound of [start:stop] on an axis of length [len]: a negative bound
    counts from the end, and every bound is clipped to the axis. *)
Definition slice_index (i len : Z) : Z :=
  if i <? 0 then Z.max (i + len) 0 else Z.min i len.

(** Offset and length of [start:stop] on an axis of length [len]. *)
Definition slice_range (start stop len : Z) : Z * Z :=
  let s := slice_index start len in
  let e := slice_index stop len in
  (s, Z.max 0 (e - s)).

(** [v[ystart:ystop, xstart:xstop]] *)
Definition slice2 (v : view) (ystart ystop xstart xstop : Z) : view :=
  let '(yo, yn) := slice_range ystart ystop (nr v) in
  let '(xo, xn) := slice_range xstart xstop (nc v) in
  View (r0 v + yo) yn (c0 v + xo) xn.

(** ** Assignment between views

    [dst[...] = src[...]] needs the source shape to equal the destination
    shape, or to be 1 where it differs (broadcasting); otherwise NumPy raises
    [ValueError]. The copy then visits every destination element once. *)

Definition broadcast_ok (dst src : view) : bool :=
  ((nr src =? nr dst) || (nr src =? 1)) && ((nc src =? nc dst) || (nc src =? 1)).

Definition bidx (n i : Z) : Z := if n =? 1 then 0 else i.

(** The element pairs of the copy: destination index, source index. *)
Definition copy_plan (dst src : view) : list ((Z * Z) * (Z * Z)) :=
  i ← seqZ 0 (nr dst);
  j ← seqZ 0 (nc dst);
  [((r0 dst + i, c0 dst + j), (r0 src + bidx (nr src) i, c0 src + bidx (nc src) j))].

Fixpoint run_plan (plan : list ((Z * Z) * (Z * Z))) (src_a dst_a : ndarray)
  : result ndarray :=
  match plan with
  | [] => Ok dst_a
  | (d, s) :: rest =>
      v ← load src_a s;
      dst_a' ← store dst_a d v;
      run_plan rest src_a dst_a'
  end.

Definition assign (dst_a : ndarray) (dst : view) (src_a : ndarray) (src : view)
  : result ndarray :=
  if broadcast_ok dst src then run_plan (copy_plan dst src) src_a dst_a
  else Raise ValueError.

(** ** The loop body of [make_multiple_cutouts] *)

(** Lines 50-65: [cutout_region] and [array_region], or [None] when the
    test of line 62 fails. *)
Definition regions (array cutout : ndarray) (half_size x y : Z)
  : option (view * view) :=
  let x_start := Z.max 0 (x - half_size) in
  let x_end := Z.min (shape1 array) (x + half_size + 1) in
  let y_start := Z.max 0 (y - half_size) in
  let y_end := Z.min (shape0 array) (y + half_size + 1) in
  let cutout_x_start := Z.max 0 (half_size - x) in
  let cutout_x_end := cutout_x_start + (x_end - x_start) in
  let cutout_y_start := Z.max 0 (half_size - y) in
  let cutout_y_end := cutout_y_start + (y_end - y_start) in
  if (x_end >? x_start) && (y_end >? y_start) then
    let cutout_region :=
      slice2 (whole cutout) cutout_y_start cutout_y_end cutout_x_start cutout_x_end in
    let array_region := slice2 (whole array) y_start y_end x_start x_end in
    Some (cutout_region, array_region)
  else None.

(** Lines 68-72: both regions cut down to the smaller shape, [:min_y, :min_x].
    These are the two sides of the assignment of line 72. *)
Definition clamp (cutout_region array_region : view) : view * view :=
  let min_y := Z.min (nr cutout_region) (nr array_region) in
  let min_x := Z.min (nc cutout_region) (nc array_region) in
  (slice2 cutout_region 0 min_y 0 min_x, slice2 array_region 0 min_y 0 min_x).

Definition copy_views (array cutout : ndarray) (half_size x y : Z)
  : option (view * view) :=
  match regions array cutout half_size x y with
  | Some (cutout_region, array_region) => Some (clamp cutout_region array_region)
  | None => None
  end.

(** Lines 47-72 for an array of two axes and a center already rounded. *)
Definition make_cutout (array : ndarray) (size half_size x y : Z) : result ndarray :=
  cutout ← np_full size size NaN;
  match copy_views array cutout half_size x y with
  | Some (dst, src) => assign cutout dst array src
  | None => Ok cutout
  end.

(** Lines 47-72 for the squeezed array. [array.shape[1]] (line 51) is the
    first use of the array: when the shape has no second entry it raises,
    after the cutout of line 47 has been allocated; otherwise the array has
    its two axes and the shape that [make_cutout] reads. *)
Definition make_cutout_squeezed (array : squeezed) (size half_size x y : Z)
  : result ndarray :=
  match shape_at array 1 with
  | Ok _ => make_cutout (samples array) size half_size x y
  | Raise e => _ ← np_full size size NaN; Raise e
  end.

(** Lines 42-75. *)
Fixpoint cutout_loop (array : squeezed) (size half_size : Z)
    (pix : list (pyfloat * pyfloat)) (cutouts : list ndarray)
  : result (list ndarray) :=
  match pix with
  | [] => Ok cutouts
  | (x, y) :: rest =>
      x ← py_int <$> py_round x;
      y ← py_int <$> py_round y;
      cutout ← make_cutout_squeezed array size half_size x y;
      cutout_loop array size half_size rest (cutouts ++ [cutout])
  end.

(** Lines 25 and 37-78. [array] is the image data as read from the file
    and [x_pix], [y_pix] are the pixel coordinates returned by the
    projection. *)
Definition make_multiple_cutouts (array : ndarray) (x_pix y_pix : list pyfloat)
    (size : Z) : result (list ndarray) :=
  let array := np_squeeze array in
  let half_size := size `div` 2 in
  cutout_loop array size half_size (zip x_pix y_pix) [].

(** The same call on a list of centers. *)
Definition extract_many (array : ndarray) (centers : list (pyfloat * pyfloat))
    (size : Z) : result (list ndarray) :=
  make_multiple_cutouts array centers.*1 centers.*2 size.

(** ** Auxiliary notions used to state the properties *)

(** One iteration of the loop, as a function of its center. *)
Definition iteration (array : squeezed) (size half_size : Z)
    (c : pyfloat * pyfloat) : result ndarray :=
  x ← py_int <$> py_round c.1;
  y ← py_int <$> py_round c.2;
  make_cutout_squeezed array size half_size x y.

(** One iteration of the loop of the call on the image [array]. *)
Definition center_cutout (array : ndarray) (size half_size : Z)
    (c : pyfloat * pyfloat) : result ndarray :=
  iteration (np_squeeze array) size half_size c.

Definition finite_center (c : pyfloat * pyfloat) : Prop :=
  is_finite c.1 = true ∧ is_finite c.2 = true.

(** The elements of [l] at the positions listed in [p], in that order. *)
Definition permute {A} (p : list nat) (l : list A) : list A :=
  omap (λ i, l !! i) p.

(** The four ways [round_half_even] picks its result. *)
Inductive rounding_case (q : Q) : Z → Prop :=
  | round_down :
      (q - inject_Z (Qfloor q) < 1 # 2)%Q → rounding_case q (Qfloor q)
  | round_up :
      (1 # 2 < q - inject_Z (Qfloor q))%Q → rounding_case q (Qfloor q + 1)
  | round_tie_even :
      (q - inject_Z (Qfloor q) == 1 # 2)%Q → Z.even (Qfloor q) = true →
      rounding_case q (Qfloor q)
  | round_tie_odd :
      (q - inject_Z (Qfloor q) == 1 # 2)%Q → Z.even (Qfloor q) = false →
      rounding_case q (Qfloor q + 1).

(** A view lies inside its base array. *)
Definition view_within (v : view) (a : ndarray) : Prop :=
  (0 ≤ r0 v ∧ 0 ≤ nr v ∧ r0 v + nr v ≤ shape0 a) ∧
  (0 ≤ c0 v ∧ 0 ≤ nc v ∧ c0 v + nc v ≤ shape1 a).

(** An index lies inside a view. *)
Definition in_view (v : view) (p : Z * Z) : Prop :=
  (r0 v ≤ p.1 < r0 v + nr v) ∧ (c0 v ≤ p.2 < c0 v + nc v).

#[global] Instance in_view_dec v p : Decision (in_view v p).
Proof. unfold in_view. apply _. Defined.

(** Every element of the array is NaN. *)
Definition all_sentinel (a : ndarray) : Prop :=
  Forall (Forall (λ v, v = SFloat NaN)) (data a).

(** The loop body without the re-clamp of lines 68-69: line 72 read as
    [cutout_region[:, :] = array_region]. *)
Definition make_cutout_unclamped (array : ndarray) (size half_size x y : Z)
  : result ndarray :=
  cutout ← np_full size size NaN;
  match regions array cutout half_size x y with
  | Some (cutout_region, array_region) => assign cutout cutout_region array array_region
  | None => Ok cutout
  end.

(** A float64 array given by its values. *)
Definition float64_array (rows : list (list pyfloat)) (n : nat) : ndarray :=
  NDArray ((λ row : list pyfloat, SFloat <$> row) <$> rows) n.

(** The 5 x 5 raster holding 0..24 in row-major order. *)
Definition raster5 : ndarray :=
  NDArray ((λ i, (λ j, SFloat (Fin (inject_Z (5 * i + j)))) <$> seqZ 0 5) <$> seqZ 0 5) 5.

(** An image of one row, an image of one column, and an image of 64-bit
    integers one of which is 2^53 + 1. *)
Definition raster_row : ndarray :=
  NDArray [[SFloat (Fin 0); SFloat (Fin 1); SFloat (Fin 2); SFloat (Fin 3);
            SFloat (Fin 4)]] 5.

Definition raster_column : ndarray :=
  NDArray [[SFloat (Fin 0)]; [SFloat (Fin 1)]; [SFloat (Fin 2)]] 1.

Definition raster_int : ndarray :=
  NDArray [[SInt 9007199254740993; SInt 1]; [SInt 2; SInt 3]] 2.

(** * [msclip] of [visibilities/clip_ms.py]

    The model covers what [msclip] computes between the calls of the table
    library: the path of the measurement set (line 21), the time bounds of
    the chunks (lines 31-40) and the rows kept of each table (lines 57-66).
    Opening, copying and closing tables, the shell command that swaps the
    tables, the clock and the printing are outside the model.

    A column read with [getcol] is the list of its values, one per row. A
    path is the string of its bytes; the slash is a single byte that occurs
    in no other character. *)

Module ClipMs.

Inductive error : Type :=
  | ValueError
  | IndexError
  | ZeroDivisionError.

Inductive outcome (A : Type) : Type :=
  | Done (a : A)
  | Fail (e : error).

Arguments Done {A} a.
Arguments Fail {A} e.

#[global] Instance outcome_ret : MRet outcome := @Done.
#[global] Instance outcome_bind : MBind outcome :=
  λ A B f m, match m with Done a => f a | Fail e => Fail e end.

(** ** Line 21: the path *)

(** [s.rstrip(c)] for a single character [c]. *)
Fixpoint rstrip (c : Ascii.ascii) (s : string) : string :=
  match s with
  | EmptyString => EmptyString
  | String a s' =>
      match rstrip c s' with
      | EmptyString => if Ascii.eqb a c then EmptyString else String a EmptyString
      | r => String a r
      end
  end.

Definition normalize_path (ms_path : string) : string :=
  rstrip "/"%char ms_path +:+ "/".

(** Line 44, from the path as given to [msclip]. *)
Definition tabpath (ms_path tabname : string) : string :=
  normalize_path ms_path +:+ tabname.

(** ** Comparisons and reductions on floats *)

(** [a <= b]: false as soon as one side is NaN. *)
Definition fle (a b : pyfloat) : bool :=
  match a, b with
  | NaN, _ | _, NaN => false
  | NegInf, _ => true
  | _, PosInf => true
  | Fin p, Fin q => Qle_bool p q
  | _, _ => false
  end.

(** [a >= b] *)
Definition fge (a b : pyfloat) : bool := fle b a.

(** [np.minimum] and [np.maximum] of two values: NaN wins. *)
Definition minimum (a b : pyfloat) : pyfloat :=
  match a, b with
  | NaN, _ | _, NaN => NaN
  | _, _ => if fle a b then a else b
  end.

Definition maximum (a b : pyfloat) : pyfloat :=
  match a, b with
  | NaN, _ | _, NaN => NaN
  | _, _ => if fle a b then b else a
  end.

(** [np.min(x)] and [np.max(x)]: an empty array has no minimum. *)
Definition np_min (x : list pyfloat) : outcome pyfloat :=
  match x with
  | [] => Fail ValueError
  | v :: rest => Done (foldl minimum v rest)
  end.

Definition np_max (x : list pyfloat) : outcome pyfloat :=
  match x with
  | [] => Fail ValueError
  | v :: rest => Done (foldl maximum v rest)
  end.

(** ** Lines 31-40: the chunks and their time bounds *)

Fixpoint insert_unique (v : Z) (l : list Z) : list Z :=
  match l with
  | [] => [v]
  | w :: l' =>
      if v <? w then v :: w :: l'
      else if v =? w then w :: l'
      else w :: insert_unique v l'
  end.

(** [np.unique(a)]: the values of [a], each once, in increasing order. *)
Definition np_unique (a : list Z) : list Z := foldr insert_unique [] a.

Fixpoint where_from (i : nat) (mask : list bool) : list nat :=
  match mask with
  | [] => []
  | b :: mask' => if b then i :: where_from (S i) mask' else where_from (S i) mask'
  end.

(** [np.where(mask)[0]]: the positions at which [mask] holds, in increasing
    order. *)
Definition np_where (mask : list bool) : list nat := where_from 0 mask.

(** [a[index]] for an array of indices: an index past the end is an error. *)
Definition take_indices (a : list pyfloat) (index : list nat) : outcome (list pyfloat) :=
  mapM (λ i, match a !! i with Some v => Done v | None => Fail IndexError end) index.

(** Lines 31-40: [min_times] and [max_times]. *)
Definition chunk_bounds (chunk_ids : list Z) (mstime : list pyfloat)
  : outcome (list pyfloat * list pyfloat) :=
  let unique_chunks := np_unique chunk_ids in
  let indices := (λ val, np_where ((λ c, c =? val) <$> chunk_ids)) <$> unique_chunks in
  chunktimes ← mapM (take_indices mstime) indices;
  min_times ← mapM np_min chunktimes;
  max_times ← mapM np_max chunktimes;
  Done (min_times, max_times).

(** ** Lines 57-66: the rows kept of one table *)

(** One row of [condition] (line 61): a time against every chunk. Both
    lists of bounds come from [chunk_bounds] and have one entry per chunk. *)
Definition condition_row (min_times max_times : list pyfloat) (t : pyfloat) : list bool :=
  zip_with andb ((λ mn, fge t mn) <$> min_times) ((λ mx, fle t mx) <$> max_times).

(** [row.any()] *)
Definition any (row : list bool) : bool := existsb id row.

(** Line 64. *)
Definition keeper_indices (min_times max_times cliptime : list pyfloat) : list nat :=
  np_where ((λ t, any (condition_row min_times max_times t)) <$> cliptime).

(** [tab.selectrows(rownrs)]: the rows with the given numbers. *)
Definition selectrows {A} (rows : list A) (rownrs : list nat) : list A :=
  omap (λ i, rows !! i) rownrs.

(** Lines 57-66 for a table given by its rows, [time] reading the TIME
    column of a row. The fraction printed on line 65 divides by the number
    of rows. *)
Definition clip_rows {A} (time : A → pyfloat) (min_times max_times : list pyfloat)
    (rows : list A) : outcome (list A) :=
  let cliptime := time <$> rows in
  let keeper_indices := keeper_indices min_times max_times cliptime in
  if decide (length cliptime = 0%nat) then Fail ZeroDivisionError
  else Done (selectrows rows keeper_indices).

(** Lines 31-40 and 57-66 together: the rows that replace a table, from
    the two columns of the measurement set and the rows of the table. *)
Definition clip_table {A} (time : A → pyfloat) (chunk_ids : list Z)
    (mstime : list pyfloat) (rows : list A) : outcome (list A) :=
  '(min_times, max_times) ← chunk_bounds chunk_ids mstime;
  clip_rows time min_times max_times rows.

(** ** Auxiliary notions used to state the properties *)

(** The string of [k] characters [c]. *)
Fixpoint copies (c : Ascii.ascii) (k : nat) : string :=
  match k with
  | O => EmptyString
  | S k' => String c (copies c k')
  end.

(** [t] is the TIME of a row of the measurement set that belongs to chunk
    [val]. *)
Definition chunk_time (chunk_ids : list Z) (mstime : list pyfloat) (val : Z)
    (t : pyfloat) : Prop :=
  ∃ i, chunk_ids !! i = Some val ∧ mstime !! i = Some t.

(** [mn] is the lower time bound of chunk [val]: NaN when a TIME of the
    chunk is NaN, and otherwise a TIME of the chunk that no TIME of the
    chunk is below. *)
Definition lower_bound_of (chunk_ids : list Z) (mstime : list pyfloat) (val : Z)
    (mn : pyfloat) : Prop :=
  (chunk_time chunk_ids mstime val NaN → mn = NaN) ∧
  (¬ chunk_time chunk_ids mstime val NaN →
   chunk_time chunk_ids mstime val mn ∧
   ∀ t, chunk_time chunk_ids mstime val t → fle mn t = true).

(** [mx] is the upper time bound of chunk [val]. *)
Definition upper_bound_of (chunk_ids : list Z) (mstime : list pyfloat) (val : Z)
    (mx : pyfloat) : Prop :=
  (chunk_time chunk_ids mstime val NaN → mx = NaN) ∧
  (¬ chunk_time chunk_ids mstime val NaN →
   chunk_time chunk_ids mstime val mx ∧
   ∀ t, chunk_time chunk_ids mstime val t → fle t mx = true).

(** The test that decides whether a row with TIME [t] is kept. *)
Definition kept (min_times max_times : list pyfloat) (t : pyfloat) : bool :=
  any (condition_row min_times max_times t).

(** A measurement set of five rows in three chunks, and a table of eight
    rows, each a TIME and a payload. *)
Definition ms_chunk_ids : list Z := [3; 0; 1; 1; 0].
Definition ms_times : list pyfloat := [Fin 30; Fin 11; Fin 20; Fin 22; Fin 10].
Definition table_rows : list (pyfloat * nat) :=
  [(Fin 9, 0); (Fin 10, 1); (Fin (21 # 2), 2); (Fin 15, 3); (Fin 21, 4);
   (Fin 30, 5); (Fin 31, 6); (NaN, 7)]%nat.

End ClipMs.

(** * Properties *)

(** ** Arrays: bounds, lookups and stores *)

Lemma in_bounds_spec a p :
  in_bounds a p = true ↔ 0 ≤ p.1 < shape0 a ∧ 0 ≤ p.2 < shape1 a.
Proof. unfold in_bounds. rewrite !andb_true_iff. lia. Qed.

Lemma in_bounds_false a p :
  in_bounds a p = false ↔ ¬ (0 ≤ p.1 < shape0 a ∧ 0 ≤ p.2 < shape1 a).
Proof. rewrite <- in_bounds_spec. destruct (in_bounds a p); naive_solver. Qed.

Lemma lookup2_in_bounds a p :
  wf_ndarray a → in_bounds a p = true → is_Some (lookup2 a p).
Proof.
  intros Hwf Hb. unfold lookup2. rewrite Hb.
  apply in_bounds_spec in Hb as [Hr Hc]. unfold shape0, shape1 in *.
  destruct (lookup_lt_is_Some_2 (data a) (Z.to_nat p.1)) as [row Hrow]; [lia|].
  rewrite Hrow. simpl.
  apply lookup_lt_is_Some_2.
  rewrite (proj1 (Forall_lookup _ _) Hwf _ _ Hrow). lia.
Qed.

Lemma lookup2_out_of_bounds a p : in_bounds a p = false → lookup2 a p = None.
Proof. intros Hb. unfold lookup2. by rewrite Hb. Qed.

Lemma load_in_bounds a p :
  wf_ndarray a → in_bounds a p = true → ∃ v, load a p = Ok v ∧ lookup2 a p = Some v.
Proof.
  intros Hwf Hb. destruct (lookup2_in_bounds a p Hwf Hb) as [v Hv].
  exists v. unfold load. by rewrite Hv.
Qed.

Lemma in_bounds_shape a a' p :
  shape0 a' = shape0 a → shape1 a' = shape1 a → in_bounds a' p = in_bounds a p.
Proof. intros H0 H1. unfold in_bounds. by rewrite H0, H1. Qed.

Lemma store_in_bounds a p v :
  wf_ndarray a → in_bounds a p = true →
  ∃ a', store a p v = Ok a' ∧ wf_ndarray a' ∧
        shape0 a' = shape0 a ∧ shape1 a' = shape1 a ∧
        ∀ q, lookup2 a' q =
             if decide (q = p) then Some (SFloat (as_float64 v)) else lookup2 a q.
Proof.
  intros Hwf Hb. unfold store. rewrite Hb.
  set (a' := NDArray _ _). exists a'.
  assert (Hsh0 : shape0 a' = shape0 a).
  { unfold shape0, a'. simpl. by rewrite length_alter. }
  assert (Hsh1 : shape1 a' = shape1 a) by done.
  split_and!; [done| |done|done|].
  - unfold wf_ndarray, a' in *. simpl. apply Forall_alter; [done|].
    intros row _ Hrow. by rewrite length_insert.
  - intros q. unfold lookup2. rewrite (in_bounds_shape a a' q Hsh0 Hsh1).
    destruct (in_bounds a q) eqn:Hq.
    + apply in_bounds_spec in Hq as [Hqr Hqc].
      apply in_bounds_spec in Hb as [Hpr Hpc].
      unfold shape0, shape1 in Hqr, Hqc, Hpr, Hpc. unfold a'. simpl.
      destruct (decide (q.1 = p.1)) as [Hr|Hr].
      * rewrite Hr, list_lookup_alter_eq.
        destruct (lookup_lt_is_Some_2 (data a) (Z.to_nat p.1)) as [row Hrow]; [lia|].
        rewrite Hrow. simpl.
        assert (Hlen : length row = ncols a)
          by apply (proj1 (Forall_lookup _ _) Hwf _ _ Hrow).
        destruct (decide (q = p)) as [->|Hne].
        -- apply list_lookup_insert_eq. lia.
        -- apply list_lookup_insert_ne.
           intros Heq. apply Hne. destruct q, p; simpl in *. f_equal; lia.
      * rewrite list_lookup_alter_ne by lia.
        by rewrite decide_False by congruence.
    + rewrite decide_False; [done|]. intros ->. congruence.
Qed.

Lemma np_full_ok n m v :
  0 ≤ n → 0 ≤ m →
  ∃ a, np_full n m v = Ok a ∧ wf_ndarray a ∧ shape0 a = n ∧ shape1 a = m ∧
       ∀ p, lookup2 a p = if in_bounds a p then Some (SFloat v) else None.
Proof.
  intros Hn Hm. unfold np_full.
  rewrite (proj2 (orb_false_iff _ _)) by (split; apply Z.ltb_ge; lia).
  set (a := NDArray _ _). exists a.
  assert (Hsh0 : shape0 a = n).
  { unfold shape0, a. simpl. rewrite length_replicate. lia. }
  assert (Hsh1 : shape1 a = m).
  { unfold shape1, a. simpl. lia. }
  split_and!; [done| |done|done|].
  - unfold wf_ndarray, a. simpl. apply Forall_replicate, length_replicate.
  - intros p. unfold lookup2. destruct (in_bounds a p) eqn:Hp; [|done].
    apply in_bounds_spec in Hp as [Hr Hc]. rewrite Hsh0 in Hr. rewrite Hsh1 in Hc.
    unfold a. simpl.
    rewrite lookup_replicate_2 by lia. simpl.
    apply lookup_replicate_2. lia.
Qed.

Lemma np_full_negative n m v : n < 0 ∨ m < 0 → np_full n m v = Raise ValueError.
Proof.
  intros H. unfold np_full.
  destruct (n <? 0) eqn:Hn; [done|]. destruct (m <? 0) eqn:Hm; [done|]. lia.
Qed.

(** ** Views stay inside their base array *)

Lemma slice_index_range i len : 0 ≤ len → 0 ≤ slice_index i len ≤ len.
Proof. intros Hlen. unfold slice_index. destruct (Z.ltb_spec i 0); lia. Qed.

Lemma slice_range_within start stop len :
  0 ≤ len →
  0 ≤ (slice_range start stop len).1 ∧ 0 ≤ (slice_range start stop len).2 ∧
  (slice_range start stop len).1 + (slice_range start stop len).2 ≤ len.
Proof.
  intros Hlen. unfold slice_range. cbn [fst snd].
  pose proof (slice_index_range start len Hlen).
  pose proof (slice_index_range stop len Hlen). lia.
Qed.

Lemma whole_within a : view_within (whole a) a.
Proof. unfold view_within, whole, shape0, shape1. simpl. lia. Qed.

Lemma slice2_r0 v ys ye xs xe :
  r0 (slice2 v ys ye xs xe) = r0 v + (slice_range ys ye (nr v)).1.
Proof. done. Qed.

Lemma slice2_nr v ys ye xs xe :
  nr (slice2 v ys ye xs xe) = (slice_range ys ye (nr v)).2.
Proof. done. Qed.

Lemma slice2_c0 v ys ye xs xe :
  c0 (slice2 v ys ye xs xe) = c0 v + (slice_range xs xe (nc v)).1.
Proof. done. Qed.

Lemma slice2_nc v ys ye xs xe :
  nc (slice2 v ys ye xs xe) = (slice_range xs xe (nc v)).2.
Proof. done. Qed.

Lemma slice2_within v a ys ye xs xe :
  view_within v a → view_within (slice2 v ys ye xs xe) a.
Proof.
  intros [(Hr0 & Hnr & Hr) (Hc0 & Hnc & Hc)].
  unfold view_within.
  rewrite slice2_r0, slice2_nr, slice2_c0, slice2_nc.
  pose proof (slice_range_within ys ye (nr v) Hnr).
  pose proof (slice_range_within xs xe (nc v) Hnc).
  lia.
Qed.

(** ** The element-wise copy *)

Lemma bidx_same n i : 0 ≤ i < n → bidx n i = i.
Proof. intros Hi. unfold bidx. destruct (Z.eqb_spec n 1); lia. Qed.

Lemma elem_of_copy_plan dst src d s :
  (d, s) ∈ copy_plan dst src ↔
  ∃ i j, 0 ≤ i < nr dst ∧ 0 ≤ j < nc dst ∧
         d = (r0 dst + i, c0 dst + j) ∧
         s = (r0 src + bidx (nr src) i, c0 src + bidx (nc src) j).
Proof.
  unfold copy_plan. rewrite list_elem_of_bind. split.
  - intros (i & Hin & Hi). apply list_elem_of_bind in Hin as (j & Hin & Hj).
    apply elem_of_seqZ in Hi, Hj. apply list_elem_of_singleton in Hin.
    exists i, j. split_and!; [lia..| |]; congruence.
  - intros (i & j & Hi & Hj & -> & ->). exists i. split; [|apply elem_of_seqZ; lia].
    apply list_elem_of_bind. exists j. split; [|apply elem_of_seqZ; lia].
    by apply list_elem_of_singleton.
Qed.

Lemma elem_of_copy_plan_dst dst src d :
  d ∈ (copy_plan dst src).*1 ↔ in_view dst d.
Proof.
  rewrite list_elem_of_fmap. split.
  - intros ([d' s] & -> & Hin). apply elem_of_copy_plan in Hin as (i & j & Hi & Hj & -> & _).
    unfold in_view. simpl. lia.
  - intros [Hr Hc].
    exists (d, (r0 src + bidx (nr src) (d.1 - r0 dst), c0 src + bidx (nc src) (d.2 - c0 dst))).
    split; [done|]. apply elem_of_copy_plan.
    exists (d.1 - r0 dst), (d.2 - c0 dst). split_and!; [lia..| |done].
    destruct d. simpl. f_equal; lia.
Qed.

Lemma run_plan_spec (f : Z * Z → Z * Z) plan src_a dst_a :
  wf_ndarray src_a → wf_ndarray dst_a →
  Forall (λ ds, in_bounds dst_a ds.1 = true ∧ in_bounds src_a ds.2 = true ∧ ds.2 = f ds.1)
         plan →
  ∃ dst_a', run_plan plan src_a dst_a = Ok dst_a' ∧ wf_ndarray dst_a' ∧
            shape0 dst_a' = shape0 dst_a ∧ shape1 dst_a' = shape1 dst_a ∧
            ∀ q, lookup2 dst_a' q =
                 if decide (q ∈ plan.*1)
                 then SFloat ∘ as_float64 <$> lookup2 src_a (f q)
                 else lookup2 dst_a q.
Proof.
  intros Hsrc. revert dst_a.
  induction plan as [|[d s] rest IH]; intros dst_a Hdst Hall.
  - exists dst_a. split_and!; [done..|]. intros q.
    case_decide as Hin; [|done]. by apply elem_of_nil in Hin.
  - apply Forall_cons in Hall as [(Hd & Hs & Hf) Hall]. simpl in Hd, Hs, Hf.
    destruct (load_in_bounds src_a s Hsrc Hs) as (v & Hload & Hv).
    destruct (store_in_bounds dst_a d v Hdst Hd) as (dst1 & Hstore & Hwf1 & H0 & H1 & Hlk).
    destruct (IH dst1 Hwf1) as (dst' & Hrun & Hwf' & H0' & H1' & Hlk').
    { eapply Forall_impl; [exact Hall|]. intros [d' s'] (? & ? & ?).
      split_and!; [|done..]. by rewrite (in_bounds_shape dst_a dst1). }
    exists dst'. simpl. rewrite Hload. simpl. rewrite Hstore. simpl.
    split_and!; [done|done|congruence|congruence|].
    intros q. rewrite Hlk', Hlk.
    change (list_fmap _ _ fst rest) with (rest.*1).
    destruct (decide (q = d)) as [->|Hne].
    + rewrite (decide_True (P := d ∈ d :: rest.*1)) by apply list_elem_of_here.
      rewrite <- Hf, Hv. by destruct (decide (d ∈ rest.*1)).
    + destruct (decide (q ∈ rest.*1)) as [Hin|Hnin].
      * by rewrite decide_True by by apply list_elem_of_further.
      * rewrite decide_False; [done|]. intros [?|?]%elem_of_cons; done.
Qed.

(** Assignment between two views of equal shape that lie inside their base
    arrays succeeds, keeps the shape of the destination array, and changes
    exactly the elements of the destination view. *)
Lemma assign_spec dst_a dst src_a src :
  wf_ndarray src_a → wf_ndarray dst_a →
  view_within dst dst_a → view_within src src_a →
  nr src = nr dst → nc src = nc dst →
  ∃ dst_a', assign dst_a dst src_a src = Ok dst_a' ∧ wf_ndarray dst_a' ∧
            shape0 dst_a' = shape0 dst_a ∧ shape1 dst_a' = shape1 dst_a ∧
            ∀ q, lookup2 dst_a' q =
                 if decide (in_view dst q)
                 then SFloat ∘ as_float64 <$>
                      lookup2 src_a (q.1 - r0 dst + r0 src, q.2 - c0 dst + c0 src)
                 else lookup2 dst_a q.
Proof.
  intros Hsrc Hdst Hvd Hvs Hnr Hnc. unfold assign, broadcast_ok.
  rewrite Hnr, Hnc, !Z.eqb_refl. simpl.
  destruct (run_plan_spec
              (λ q, (q.1 - r0 dst + r0 src, q.2 - c0 dst + c0 src))
              (copy_plan dst src) src_a dst_a Hsrc Hdst)
    as (dst' & Hrun & Hwf & H0 & H1 & Hlk).
  { apply Forall_forall. intros [d s] Hin.
    apply elem_of_copy_plan in Hin as (i & j & Hi & Hj & -> & ->).
    rewrite !bidx_same by lia. simpl.
    destruct Hvd as [? ?], Hvs as [? ?].
    split_and!; [apply in_bounds_spec; simpl; lia..|f_equal; lia]. }
  exists dst'. split_and!; [done..|].
  intros q. rewrite Hlk.
  destruct (decide (in_view dst q)) as [Hin|Hnin].
  - by rewrite decide_True by by apply elem_of_copy_plan_dst.
  - rewrite decide_False; [done|]. by rewrite elem_of_copy_plan_dst.
Qed.

(** ** Geometry of one axis

    [L] is the length of the raster axis, [p] the rounded center on that
    axis and [h] the half size; the cutout axis has length [size], which is
    [2 * h] or [2 * h + 1]. *)

Lemma slice_index_nonneg i len : 0 ≤ i → slice_index i len = Z.min i len.
Proof. intros Hi. unfold slice_index. destruct (Z.ltb_spec i 0); [lia|done]. Qed.

Lemma slice_range_nonneg start stop len :
  0 ≤ start → 0 ≤ stop →
  slice_range start stop len = (Z.min start len, Z.max 0 (Z.min stop len - Z.min start len)).
Proof. intros Hs He. unfold slice_range. by rewrite !slice_index_nonneg. Qed.

Lemma axis_overlap L size h p :
  0 ≤ L → 0 ≤ h → size = 2 * h ∨ size = 2 * h + 1 →
  let a_start := Z.max 0 (p - h) in
  let a_end := Z.min L (p + h + 1) in
  let c_start := Z.max 0 (h - p) in
  let c_end := c_start + (a_end - a_start) in
  let creg := slice_range c_start c_end size in
  let areg := slice_range a_start a_end L in
  let m := Z.min creg.2 areg.2 in
  let d := slice_range 0 m creg.2 in
  let s := slice_range 0 m areg.2 in
  (a_end >? a_start) = true →
  d.2 = s.2 ∧
  (areg.1 + s.1) - (creg.1 + d.1) = p - h ∧
  ∀ i, 0 ≤ i < size → (creg.1 + d.1 ≤ i < creg.1 + d.1 + d.2 ↔ 0 ≤ i + p - h < L).
Proof.
  intros HL Hh Hsize a_start a_end c_start c_end creg areg m d s Hov%Z.gtb_gt.
  assert (Hcreg : creg = (c_start, Z.min c_end size - c_start)).
  { unfold creg. rewrite slice_range_nonneg by lia. f_equal; lia. }
  assert (Hareg : areg = (a_start, a_end - a_start)).
  { unfold areg. rewrite slice_range_nonneg by lia. f_equal; lia. }
  assert (Hm : m = Z.min c_end size - c_start).
  { unfold m. rewrite Hcreg, Hareg. cbn [fst snd]. lia. }
  assert (Hd : d = (0, m)).
  { unfold d. rewrite slice_range_nonneg by lia. rewrite Hcreg. cbn [snd]. f_equal; lia. }
  assert (Hs : s = (0, m)).
  { unfold s. rewrite slice_range_nonneg by lia. rewrite Hareg. cbn [snd]. f_equal; lia. }
  rewrite Hd, Hs, Hcreg, Hareg, Hm. cbn [fst snd].
  split_and!; [done|lia|]. intros i Hi. lia.
Qed.

Lemma axis_no_overlap L size h p :
  0 ≤ L → 0 ≤ h → size = 2 * h ∨ size = 2 * h + 1 →
  (Z.min L (p + h + 1) >? Z.max 0 (p - h)) = false →
  ∀ i, 0 ≤ i < size → ¬ (0 ≤ i + p - h < L).
Proof.
  intros HL Hh Hsize Hov i Hi.
  pose proof (Zgt_cases (Z.min L (p + h + 1)) (Z.max 0 (p - h))) as Hle.
  rewrite Hov in Hle. lia.
Qed.

(** ** The two regions of the copy *)

Section copy_views.
Variables (array cutout : ndarray) (size h x y : Z).
Hypothesis Hh : 0 ≤ h.
Hypothesis Hsize : size = 2 * h ∨ size = 2 * h + 1.
Hypothesis Hshape0 : shape0 cutout = size.
Hypothesis Hshape1 : shape1 cutout = size.

Lemma copy_views_Some dst src :
  copy_views array cutout h x y = Some (dst, src) →
  view_within dst cutout ∧ view_within src array ∧
  nr src = nr dst ∧ nc src = nc dst ∧
  r0 src - r0 dst = y - h ∧ c0 src - c0 dst = x - h ∧
  ∀ i j, 0 ≤ i < size → 0 ≤ j < size →
         (in_view dst (i, j) ↔ in_bounds array (i + y - h, j + x - h) = true).
Proof.
  unfold copy_views, regions, clamp.
  destruct (_ >? _) eqn:Hx; [|done]. destruct (_ >? _) eqn:Hy in |- *; [|done].
  cbn [andb]. intros [= <- <-].
  split; [by do 2 apply slice2_within; apply whole_within|].
  split; [by do 2 apply slice2_within; apply whole_within|].
  destruct (axis_overlap (shape0 array) (shape0 cutout) h y) as (Gy1 & Gy2 & Gy3);
    [unfold shape0; lia|done|by rewrite Hshape0|done|].
  destruct (axis_overlap (shape1 array) (shape1 cutout) h x) as (Gx1 & Gx2 & Gx3);
    [unfold shape1; lia|done|by rewrite Hshape1|done|].
  split_and!; [exact (eq_sym Gy1)|exact (eq_sym Gx1)|exact Gy2|exact Gx2|].
  intros i j Hi Hj. rewrite in_bounds_spec. unfold in_view. cbn [fst snd].
  rewrite <- Hshape0 in Hi. rewrite <- Hshape1 in Hj.
  specialize (Gy3 i Hi). specialize (Gx3 j Hj).
  split; (intros [? ?]; split; [by apply Gy3|by apply Gx3]).
Qed.

Lemma copy_views_None :
  copy_views array cutout h x y = None →
  ∀ i j, 0 ≤ i < size → 0 ≤ j < size →
         in_bounds array (i + y - h, j + x - h) = false.
Proof.
  unfold copy_views, regions. intros Hcv i j Hi Hj. apply in_bounds_false. cbn [fst snd].
  destruct (_ >? _) eqn:Hx in Hcv.
  - destruct (_ >? _) eqn:Hy in Hcv; [done|].
    intros [Hin _]. revert Hin.
    apply (axis_no_overlap (shape0 array) size h y); [unfold shape0; lia|done..].
  - intros [_ Hin]. revert Hin.
    apply (axis_no_overlap (shape1 array) size h x); [unfold shape1; lia|done..].
Qed.
End copy_views.

(** ** One cutout *)

Lemma half_size_cases size :
  0 ≤ size → 0 ≤ size `div` 2 ∧ (size = 2 * (size `div` 2) ∨ size = 2 * (size `div` 2) + 1).
Proof.
  intros Hs. pose proof (Z.div_mod size 2). pose proof (Z.mod_pos_bound size 2).
  pose proof (Z.div_pos size 2). lia.
Qed.

Lemma make_cutout_spec array size x y :
  wf_ndarray array → 0 ≤ size →
  ∃ c, make_cutout array size (size `div` 2) x y = Ok c ∧
       wf_ndarray c ∧ shape0 c = size ∧ shape1 c = size ∧
       ∀ i j, 0 ≤ i < size → 0 ≤ j < size →
              lookup2 c (i, j) =
              if in_bounds array (i + y - size `div` 2, j + x - size `div` 2)
              then SFloat ∘ as_float64 <$>
                   lookup2 array (i + y - size `div` 2, j + x - size `div` 2)
              else Some (SFloat NaN).
Proof.
  intros Hwf Hsize. destruct (half_size_cases size Hsize) as [Hh Hcases].
  set (h := size `div` 2) in *. unfold make_cutout.
  destruct (np_full_ok size size NaN Hsize Hsize) as (c & -> & Hwfc & H0 & H1 & Hlk).
  cbn [mbind result_bind].
  assert (Hin : ∀ i j, 0 ≤ i < size → 0 ≤ j < size →
                       lookup2 c (i, j) = Some (SFloat NaN)).
  { intros i j Hi Hj. rewrite Hlk, (proj2 (in_bounds_spec c (i, j))); [done|].
    rewrite H0, H1. done. }
  destruct (copy_views array c h x y) as [[dst src]|] eqn:Hcv.
  - destruct (copy_views_Some array c size h x y Hh Hcases H0 H1 dst src Hcv)
      as (Hvd & Hvs & Hnr & Hnc & Hr & Hc & Hiff).
    destruct (assign_spec c dst array src Hwf Hwfc Hvd Hvs Hnr Hnc)
      as (c' & -> & Hwf' & H0' & H1' & Hlk').
    exists c'. split_and!; [done|done|congruence|congruence|].
    intros i j Hi Hj. rewrite Hlk'. cbn [fst snd].
    replace (i - r0 dst + r0 src) with (i + y - h) by lia.
    replace (j - c0 dst + c0 src) with (j + x - h) by lia.
    destruct (decide (in_view dst (i, j))) as [Hv|Hv].
    + by rewrite (proj1 (Hiff i j Hi Hj) Hv).
    + destruct (in_bounds array _) eqn:Hb; [|by apply Hin].
      by apply Hiff in Hb.
  - exists c. split_and!; [done..|].
    intros i j Hi Hj.
    rewrite (copy_views_None array c size h x y Hh Hcases Hcv i j Hi Hj).
    by apply Hin.
Qed.

Lemma make_cutout_negative array size half x y :
  size < 0 → make_cutout array size half x y = Raise ValueError.
Proof. intros Hs. unfold make_cutout. rewrite np_full_negative by lia. done. Qed.

(** ** The loop over the centers *)

Lemma cutout_loop_cons array size half c rest acc :
  cutout_loop array size half (c :: rest) acc =
  cut ← iteration array size half c;
  cutout_loop array size half rest (acc ++ [cut]).
Proof.
  destruct c as [x y]. unfold iteration. cbn [cutout_loop fst snd].
  destruct (py_round x); [|done]. by destruct (py_round y).
Qed.

Lemma cutout_loop_Ok array size half pix acc out :
  cutout_loop array size half pix acc = Ok out ↔
  ∃ cs, out = acc ++ cs ∧
        Forall2 (λ c cut, iteration array size half c = Ok cut) pix cs.
Proof.
  revert acc. induction pix as [|c rest IH]; intros acc.
  - simpl. split.
    + intros [= <-]. exists []. by rewrite app_nil_r.
    + intros (cs & -> & ->%Forall2_nil_inv_l). by rewrite app_nil_r.
  - rewrite cutout_loop_cons. split.
    + destruct (iteration array size half c) as [cut|] eqn:Hcut; [|done].
      cbn [mbind result_bind].
      intros (cs & -> & Hcs)%IH. exists (cut :: cs). split.
      * by rewrite <- app_assoc.
      * by constructor.
    + intros (cs & -> & Hcs).
      apply Forall2_cons_inv_l in Hcs as (cut & cs' & Hcut & Hcs' & ->).
      rewrite Hcut. cbn [mbind result_bind].
      apply IH. exists cs'. split; [|done]. by rewrite <- app_assoc.
Qed.

Lemma cutout_loop_Raise array size half pix acc :
  Exists (λ c, ∃ e, iteration array size half c = Raise e) pix →
  ∃ e, cutout_loop array size half pix acc = Raise e.
Proof.
  revert acc. induction pix as [|c rest IH]; intros acc Hex.
  - by apply Exists_nil in Hex.
  - rewrite cutout_loop_cons.
    destruct (iteration array size half c) as [cut|e] eqn:Hc.
    + apply Exists_cons in Hex as [[e' He']|Hex]; [congruence|].
      cbn [mbind result_bind]. by apply IH.
    + by exists e.
Qed.

Lemma iteration_Fin array size half xq yq :
  iteration array size half (Fin xq, Fin yq) =
  make_cutout_squeezed array size half (round_half_even xq) (round_half_even yq).
Proof. done. Qed.

Lemma cutout_loop_ext array size half pix1 pix2 acc :
  Forall2 (λ c1 c2, iteration array size half c1 = iteration array size half c2)
          pix1 pix2 →
  cutout_loop array size half pix1 acc = cutout_loop array size half pix2 acc.
Proof.
  intros Hpix. revert acc. induction Hpix as [|c1 c2 pix1 pix2 Hc _ IH]; intros acc.
  - done.
  - rewrite !cutout_loop_cons, Hc.
    destruct (iteration array size half c2); [|done]. cbn [mbind result_bind]. apply IH.
Qed.

Lemma extract_many_unfold array centers size :
  extract_many array centers size =
  cutout_loop (np_squeeze array) size (size `div` 2) centers [].
Proof.
  unfold extract_many, make_multiple_cutouts. by rewrite zip_fst_snd.
Qed.

Lemma extract_many_Ok array centers size batch :
  extract_many array centers size = Ok batch ↔
  Forall2 (λ c cut, center_cutout array size (size `div` 2) c = Ok cut) centers batch.
Proof.
  rewrite extract_many_unfold, cutout_loop_Ok. unfold center_cutout. split.
  - by intros (cs & -> & Hcs).
  - intros Hcs. by exists batch.
Qed.

(** *** What [np.squeeze] leaves of the image *)

Lemma np_squeeze_two_axes array :
  shape0 array ≠ 1 → shape1 array ≠ 1 →
  shape (np_squeeze array) = [shape0 array; shape1 array].
Proof.
  intros H0 H1. unfold np_squeeze. cbn [shape].
  rewrite filter_cons, decide_True by done.
  by rewrite filter_cons, decide_True by done.
Qed.

Lemma np_squeeze_unit_axis array :
  shape0 array = 1 ∨ shape1 array = 1 →
  shape_at (np_squeeze array) 1 = Raise IndexError.
Proof.
  intros Hunit. unfold shape_at, np_squeeze. cbn [shape].
  rewrite filter_cons. destruct (decide (shape0 array ≠ 1)) as [H0|H0].
  - destruct Hunit as [?|H1]; [done|].
    rewrite filter_cons, decide_False by (intros ?; done). done.
  - rewrite filter_cons. by destruct (decide (shape1 array ≠ 1)).
Qed.

Lemma make_cutout_squeezed_two_axes array size half x y :
  shape0 array ≠ 1 → shape1 array ≠ 1 →
  make_cutout_squeezed (np_squeeze array) size half x y =
  make_cutout array size half x y.
Proof.
  intros H0 H1. unfold make_cutout_squeezed, shape_at.
  by rewrite np_squeeze_two_axes.
Qed.

Lemma make_cutout_squeezed_unit_axis array size half x y :
  shape0 array = 1 ∨ shape1 array = 1 → 0 ≤ size →
  make_cutout_squeezed (np_squeeze array) size half x y = Raise IndexError.
Proof.
  intros Hunit Hsize. unfold make_cutout_squeezed.
  rewrite np_squeeze_unit_axis by done.
  by destruct (np_full_ok size size NaN Hsize Hsize) as (blank & -> & _).
Qed.

Lemma make_cutout_squeezed_negative array size half x y :
  size < 0 → make_cutout_squeezed array size half x y = Raise ValueError.
Proof.
  intros Hsize. unfold make_cutout_squeezed.
  destruct (shape_at array 1).
  - by apply make_cutout_negative.
  - by rewrite np_full_negative by lia.
Qed.

Lemma center_cutout_Fin array size half xq yq :
  shape0 array ≠ 1 → shape1 array ≠ 1 →
  center_cutout array size half (Fin xq, Fin yq) =
  make_cutout array size half (round_half_even xq) (round_half_even yq).
Proof. intros H0 H1. by apply make_cutout_squeezed_two_axes. Qed.

Lemma center_cutout_finite array size half c :
  shape0 array ≠ 1 → shape1 array ≠ 1 → finite_center c →
  ∃ xq yq, c = (Fin xq, Fin yq) ∧
           center_cutout array size half c =
           make_cutout array size half (round_half_even xq) (round_half_even yq).
Proof.
  intros H0 H1.
  destruct c as [[xq| | |] [yq| | |]]; intros [Hx Hy]; try done.
  exists xq, yq. split; [done|]. by apply center_cutout_Fin.
Qed.

Lemma center_cutout_non_finite array size half c :
  ¬ finite_center c → ∃ e, center_cutout array size half c = Raise e.
Proof.
  unfold finite_center, center_cutout, iteration.
  destruct c as [[xq| | |] [yq| | |]]; cbn; intros Hc; eauto.
  destruct Hc. done.
Qed.

Lemma odd_half size : Z.odd size = true → (size - 1) `div` 2 = size `div` 2.
Proof.
  intros [m ->]%Z.odd_spec.
  replace (2 * m + 1 - 1) with (m * 2) by lia.
  replace (2 * m + 1) with (1 + m * 2) by lia.
  rewrite Z.div_mul, Z.div_add by lia. done.
Qed.

Lemma extract_many_finite array centers size :
  wf_ndarray array → shape0 array ≠ 1 → shape1 array ≠ 1 →
  0 ≤ size → Forall finite_center centers →
  ∃ batch, extract_many array centers size = Ok batch ∧
           Forall2 (λ c cut, center_cutout array size (size `div` 2) c = Ok cut)
                   centers batch.
Proof.
  intros Hwf Hs0 Hs1 Hsize Hfin.
  cut (∃ batch, Forall2 (λ c cut, center_cutout array size (size `div` 2) c = Ok cut)
                        centers batch).
  { intros [batch Hb]. exists batch. split; [by apply extract_many_Ok|done]. }
  induction Hfin as [|c rest Hc _ [batch IH]].
  - exists []. constructor.
  - destruct (center_cutout_finite array size (size `div` 2) c Hs0 Hs1 Hc)
      as (xq & yq & -> & Heq).
    destruct (make_cutout_spec array size (round_half_even xq) (round_half_even yq)
                Hwf Hsize) as (cut & Hcut & _).
    exists (cut :: batch). constructor; [congruence|done].
Qed.

Lemma length_concat_rows (rows : list (list sample)) n :
  Forall (λ row, length row = n) rows → length (concat rows) = (length rows * n)%nat.
Proof.
  induction 1 as [|row rows Hrow _ IH]; [done|].
  simpl. rewrite length_app, IH, Hrow. done.
Qed.

Lemma all_sentinel_lookup2 a :
  wf_ndarray a →
  (∀ p, in_bounds a p = true → lookup2 a p = Some (SFloat NaN)) → all_sentinel a.
Proof.
  intros Hwf Hall. unfold all_sentinel.
  apply Forall_lookup. intros i row Hrow. apply Forall_lookup. intros j v Hv.
  assert (Hlen : length row = ncols a) by apply (proj1 (Forall_lookup _ _) Hwf _ _ Hrow).
  apply lookup_lt_Some in Hrow as Hi. apply lookup_lt_Some in Hv as Hj.
  specialize (Hall (Z.of_nat i, Z.of_nat j)).
  unfold lookup2 in Hall. cbn [fst snd] in Hall.
  rewrite (proj2 (in_bounds_spec a (Z.of_nat i, Z.of_nat j))) in Hall
    by (unfold shape0, shape1; cbn [fst snd]; lia).
  rewrite !Nat2Z.id, Hrow in Hall. cbn in Hall.
  specialize (Hall eq_refl). congruence.
Qed.

(** ** The cast of a sample *)

Lemma int_to_float64_small z : Z.abs z ≤ 2 ^ 53 → int_to_float64 z = z.
Proof.
  intros Hz. destruct (Z.lt_ge_cases (Z.abs z) (2 ^ 53)) as [Hlt|Hge].
  - unfold int_to_float64. by rewrite (proj2 (Z.ltb_lt _ _) Hlt).
  - assert (z = 2 ^ 53 ∨ z = - 2 ^ 53) as [-> | ->] by lia; by vm_compute.
Qed.

Lemma as_float64_spec :
  (∀ x, as_float64 (SFloat x) = x) ∧
  (∀ z, Z.abs z ≤ 2 ^ 53 → as_float64 (SInt z) = Fin (inject_Z z)).
Proof.
  split; [done|]. intros z Hz. cbn. by rewrite int_to_float64_small.
Qed.

(** ** The content of a batch *)

(** The content of every cutout of a batch, for any size that [np.full]
    accepts and any image that keeps its two axes. *)
Lemma batch_lookup array centers size :
  wf_ndarray array → shape0 array ≠ 1 → shape1 array ≠ 1 →
  0 ≤ size → Forall finite_center centers →
  ∃ batch, extract_many array centers size = Ok batch ∧
    ∀ k xq yq, centers !! k = Some (Fin xq, Fin yq) →
      ∃ cutout, batch !! k = Some cutout ∧
        wf_ndarray cutout ∧ shape0 cutout = size ∧ shape1 cutout = size ∧
        ∀ i j, 0 ≤ i < size → 0 ≤ j < size →
          lookup2 cutout (i, j) =
          if in_bounds array (round_half_even yq - size `div` 2 + i,
                              round_half_even xq - size `div` 2 + j)
          then SFloat ∘ as_float64 <$>
               lookup2 array (round_half_even yq - size `div` 2 + i,
                              round_half_even xq - size `div` 2 + j)
          else Some (SFloat NaN).
Proof.
  intros Hwf Hs0 Hs1 Hsize Hfin.
  destruct (extract_many_finite array centers size Hwf Hs0 Hs1 Hsize Hfin)
    as (batch & Hbatch & Hall).
  exists batch. split; [done|]. intros k xq yq Hk.
  destruct (Forall2_lookup_l _ _ _ _ _ Hall Hk) as (cutout & Hcut & Hok).
  exists cutout. split; [done|].
  destruct (make_cutout_spec array size (round_half_even xq) (round_half_even yq)
              Hwf Hsize) as (c & Hc & Hwfc & H0 & H1 & Hlk).
  assert (c = cutout) as -> by (rewrite center_cutout_Fin in Hok by done; congruence).
  split_and!; [done..|].
  intros i j Hi Hj. rewrite (Hlk i j Hi Hj).
  replace (i + round_half_even yq - size `div` 2)
    with (round_half_even yq - size `div` 2 + i) by lia.
  replace (j + round_half_even xq - size `div` 2)
    with (round_half_even xq - size `div` 2 + j) by lia. done.
Qed.

(** An image with an axis of length 1: the first iteration raises on
    [array.shape[1]]. *)
Lemma extract_many_unit_axis array c rest size :
  shape0 array = 1 ∨ shape1 array = 1 → 0 ≤ size → finite_center c →
  extract_many array (c :: rest) size = Raise IndexError.
Proof.
  intros Hunit Hsize Hc. rewrite extract_many_unfold, cutout_loop_cons.
  unfold iteration. destruct c as [[xq| | |] [yq| | |]]; destruct Hc as [? ?]; try done.
  cbn [fst snd py_round fmap result_fmap mbind result_bind].
  by rewrite make_cutout_squeezed_unit_axis.
Qed.

Lemma raster5_wf : wf_ndarray raster5.
Proof. unfold wf_ndarray. cbn. repeat constructor. Qed.

Lemma raster_int_wf : wf_ndarray raster_int.
Proof. unfold wf_ndarray. cbn. repeat constructor. Qed.

(** * The claims of the specification *)

(** C1, counterexample: on an image of 64-bit integers the cutout does not
    hold the sample 2^53 + 1 that its window covers but the float64 next to
    it, 2^53; and on an image of one row, which has height and width of at
    least 1, the call raises [IndexError] and returns no cutout. *)
Lemma C1_counterexample :
  lookup2 raster_int (0, 0) = Some (SInt 9007199254740993) ∧
  extract_many raster_int [(Fin 0, Fin 0)] 1 =
    Ok [NDArray [[SFloat (Fin 9007199254740992)]] 1] ∧
  shape0 raster_row = 1 ∧ shape1 raster_row = 5 ∧
  extract_many raster_row [(Fin 0, Fin 0)] 1 = Raise IndexError.
Proof. vm_compute. done. Qed.

(** C1, as amended: for a raster with at least two rows and two columns, a
    positive odd size and finite centers, the call returns a batch in which
    the cutout of each center (x, y) holds, at every position (i, j) of its
    extent, the float64 cast of the raster sample at row
    [round y - half + i] and column [round x - half + j] when that index is
    valid for the raster, and NaN otherwise, with [half = (size - 1) / 2];
    a center whose window lies wholly off the raster gets a cutout whose
    elements are all NaN. The cast leaves a float sample as it is and keeps
    the value of an integer sample of magnitude at most 2^53. *)
Theorem C1_covered_cast_uncovered_sentinel array centers size :
  wf_ndarray array → 2 ≤ shape0 array → 2 ≤ shape1 array →
  0 < size → Z.odd size = true →
  Forall finite_center centers →
  (∃ batch, extract_many array centers size = Ok batch ∧
    ∀ k xq yq, centers !! k = Some (Fin xq, Fin yq) →
      ∃ cutout, batch !! k = Some cutout ∧
        let half := (size - 1) `div` 2 in
        let xi := round_half_even xq in
        let yi := round_half_even yq in
        (∀ i j, 0 ≤ i < size → 0 ≤ j < size →
           (in_bounds array (yi - half + i, xi - half + j) = true →
            ∃ v, lookup2 array (yi - half + i, xi - half + j) = Some v ∧
                 lookup2 cutout (i, j) = Some (SFloat (as_float64 v))) ∧
           (in_bounds array (yi - half + i, xi - half + j) = false →
            lookup2 cutout (i, j) = Some (SFloat NaN))) ∧
        (xi + half < 0 ∨ shape1 array ≤ xi - half ∨
         yi + half < 0 ∨ shape0 array ≤ yi - half → all_sentinel cutout)) ∧
  (∀ x, as_float64 (SFloat x) = x) ∧
  (∀ z, Z.abs z ≤ 2 ^ 53 → as_float64 (SInt z) = Fin (inject_Z z)).
Proof.
  intros Hwf Hs0 Hs1 Hsize Hodd Hfin. split; [|exact as_float64_spec].
  destruct (batch_lookup array centers size Hwf ltac:(lia) ltac:(lia) ltac:(lia) Hfin)
    as (batch & Hbatch & Hall).
  exists batch. split; [done|]. intros k xq yq Hk.
  destruct (Hall k xq yq Hk) as (cutout & Hcut & Hwfc & H0 & H1 & Hlk).
  exists cutout. split; [done|]. rewrite (odd_half size Hodd). cbv zeta. split.
  - intros i j Hi Hj. rewrite (Hlk i j Hi Hj). split.
    + intros Hb. rewrite Hb.
      destruct (lookup2_in_bounds array _ Hwf Hb) as [v Hv]. exists v. by rewrite Hv.
    + by intros ->.
  - intros Hmiss. apply all_sentinel_lookup2; [done|].
    intros [i j] [Hi Hj]%in_bounds_spec. cbn [fst snd] in Hi, Hj.
    rewrite H0 in Hi. rewrite H1 in Hj. rewrite (Hlk i j Hi Hj).
    rewrite (proj2 (in_bounds_false _ _)); [done|]. cbn [fst snd].
    destruct (half_size_cases size ltac:(lia)) as [? ?]. lia.
Qed.

Lemma C1_witness :
  (∃ batch, extract_many raster_int [(Fin 0, Fin 0)] 3 = Ok batch ∧
    ∀ k xq yq, [(Fin 0, Fin 0)] !! k = Some (Fin xq, Fin yq) →
      ∃ cutout, batch !! k = Some cutout ∧
        let half := (3 - 1) `div` 2 in
        let xi := round_half_even xq in
        let yi := round_half_even yq in
        (∀ i j, 0 ≤ i < 3 → 0 ≤ j < 3 →
           (in_bounds raster_int (yi - half + i, xi - half + j) = true →
            ∃ v, lookup2 raster_int (yi - half + i, xi - half + j) = Some v ∧
                 lookup2 cutout (i, j) = Some (SFloat (as_float64 v))) ∧
           (in_bounds raster_int (yi - half + i, xi - half + j) = false →
            lookup2 cutout (i, j) = Some (SFloat NaN))) ∧
        (xi + half < 0 ∨ shape1 raster_int ≤ xi - half ∨
         yi + half < 0 ∨ shape0 raster_int ≤ yi - half → all_sentinel cutout)) ∧
  (∀ x, as_float64 (SFloat x) = x) ∧
  (∀ z, Z.abs z ≤ 2 ^ 53 → as_float64 (SInt z) = Fin (inject_Z z)).
Proof.
  apply (C1_covered_cast_uncovered_sentinel raster_int [(Fin 0, Fin 0)] 3).
  - exact raster_int_wf.
  - vm_compute. discriminate.
  - vm_compute. discriminate.
  - lia.
  - reflexivity.
  - repeat constructor.
Defined.

(** ** Shape of the batch *)

Lemma make_cutout_shape array size x y cut :
  wf_ndarray array → 0 ≤ size →
  make_cutout array size (size `div` 2) x y = Ok cut →
  wf_ndarray cut ∧ shape0 cut = size ∧ shape1 cut = size ∧
  Z.of_nat (length (concat (data cut))) = size * size.
Proof.
  intros Hwf Hsize Hcut.
  destruct (make_cutout_spec array size x y Hwf Hsize) as (c & Hc & Hwfc & H0 & H1 & _).
  assert (c = cut) as -> by congruence.
  split_and!; [done..|].
  rewrite (length_concat_rows _ (ncols cut)) by done.
  unfold shape0, shape1 in *. lia.
Qed.

Lemma batch_shape array centers size :
  wf_ndarray array → shape0 array ≠ 1 → shape1 array ≠ 1 →
  0 ≤ size → Forall finite_center centers →
  ∃ batch, extract_many array centers size = Ok batch ∧
           length batch = length centers ∧
           Forall (λ cut, wf_ndarray cut ∧ shape0 cut = size ∧ shape1 cut = size ∧
                          Z.of_nat (length (concat (data cut))) = size * size) batch.
Proof.
  intros Hwf Hs0 Hs1 Hsize Hfin.
  destruct (extract_many_finite array centers size Hwf Hs0 Hs1 Hsize Hfin)
    as (batch & Hbatch & Hall).
  exists batch. split_and!; [done|by rewrite (Forall2_length _ _ _ Hall)|].
  apply Forall_lookup. intros k cut Hk.
  destruct (Forall2_lookup_r _ _ _ _ _ Hall Hk) as (c & Hc & Hok).
  apply (proj1 (Forall_lookup _ _) Hfin) in Hc.
  destruct (center_cutout_finite array size (size `div` 2) c Hs0 Hs1 Hc)
    as (xq & yq & _ & Heq).
  rewrite Heq in Hok. by eapply make_cutout_shape.
Qed.

(** C2, counterexample: on an image of three rows and one column, with
    size 3 and the finite center (0, 1), the call raises [IndexError] and
    returns no batch; so does the call on an image of one row. *)
Lemma C2_counterexample :
  shape0 raster_column = 3 ∧ shape1 raster_column = 1 ∧
  extract_many raster_column [(Fin 0, Fin 1)] 3 = Raise IndexError ∧
  extract_many raster_row [(Fin 0, Fin 0)] 3 = Raise IndexError.
Proof. vm_compute. done. Qed.

(** C2, as amended: for every raster none of whose two dimensions is 1,
    every positive odd size and every sequence of finite centers, the call
    returns a batch with exactly one cutout per center, and every cutout
    has [size] rows of [size] elements, that is [size * size] elements,
    whatever part of its window is off the raster. *)
Theorem C2_one_cutout_per_center array centers size :
  wf_ndarray array → shape0 array ≠ 1 → shape1 array ≠ 1 →
  0 < size → Z.odd size = true →
  Forall finite_center centers →
  ∃ batch, extract_many array centers size = Ok batch ∧
           length batch = length centers ∧
           Forall (λ cut, wf_ndarray cut ∧ shape0 cut = size ∧ shape1 cut = size ∧
                          Z.of_nat (length (concat (data cut))) = size * size) batch.
Proof.
  intros Hwf Hs0 Hs1 Hsize _ Hfin. apply batch_shape; [done..|lia|done].
Qed.

Lemma C2_witness :
  ∃ batch, extract_many raster5 [(Fin 0, Fin 0); (Fin (-1000), Fin (-1000))] 3 = Ok batch ∧
           length batch = length [(Fin 0, Fin 0); (Fin (-1000), Fin (-1000))] ∧
           Forall (λ cut, wf_ndarray cut ∧ shape0 cut = 3 ∧ shape1 cut = 3 ∧
                          Z.of_nat (length (concat (data cut))) = 3 * 3) batch.
Proof.
  apply (C2_one_cutout_per_center raster5 [(Fin 0, Fin 0); (Fin (-1000), Fin (-1000))] 3).
  - exact raster5_wf.
  - vm_compute. discriminate.
  - vm_compute. discriminate.
  - lia.
  - reflexivity.
  - repeat constructor.
Defined.

(** ** Arguments outside the documented contract *)

Lemma make_cutout_zero_dim array size x y cut :
  wf_ndarray array → 0 ≤ size → shape0 array = 0 ∨ shape1 array = 0 →
  make_cutout array size (size `div` 2) x y = Ok cut → all_sentinel cut.
Proof.
  intros Hwf Hsize Hzero Hcut.
  destruct (make_cutout_spec array size x y Hwf Hsize) as (c & Hc & Hwfc & H0 & H1 & Hlk).
  assert (c = cut) as -> by congruence.
  apply all_sentinel_lookup2; [done|].
  intros [i j] [Hi Hj]%in_bounds_spec. cbn [fst snd] in Hi, Hj.
  rewrite H0 in Hi. rewrite H1 in Hj. rewrite (Hlk i j Hi Hj).
  rewrite (proj2 (in_bounds_false _ _)); [done|]. cbn [fst snd]. lia.
Qed.

Lemma extract_many_negative_size array c rest size :
  finite_center c → size < 0 →
  extract_many array (c :: rest) size = Raise ValueError.
Proof.
  intros Hc Hsize. rewrite extract_many_unfold, cutout_loop_cons.
  unfold iteration. destruct c as [[xq| | |] [yq| | |]]; destruct Hc as [? ?]; try done.
  cbn [fst snd py_round fmap result_fmap mbind result_bind].
  by rewrite make_cutout_squeezed_negative.
Qed.

(** C3, counterexample: an even size, a size of zero and a raster without
    rows are all accepted, and a batch is returned. *)
Lemma C3_counterexample :
  Z.even 2 = true ∧
  extract_many raster5 [(Fin 0, Fin 0)] 2 =
    Ok [NDArray [[SFloat NaN; SFloat NaN]; [SFloat NaN; SFloat (Fin 0)]] 2] ∧
  extract_many raster5 [(Fin 0, Fin 0)] 0 = Ok [NDArray [] 0] ∧
  shape0 (NDArray [] 5) = 0 ∧
  extract_many (NDArray [] 5) [(Fin 0, Fin 0)] 1 = Ok [NDArray [[SFloat NaN]] 1].
Proof. vm_compute. done. Qed.

(** C3, as amended: the call validates neither the size nor the raster.
    Only a negative size is rejected, and only when there is at least one
    center: the allocation of the first cutout, inside the loop, raises
    [ValueError], and the call returns no batch. For every size that is not
    negative, even or odd, and every raster none of whose two dimensions is
    1, also one with zero rows or zero columns, the call on finite centers
    returns the batch of one [size] x [size] cutout per center; these
    cutouts are all NaN when the raster has a zero dimension. A raster with
    a dimension of 1 is not rejected by a check either: [np.squeeze] drops
    that axis, and with at least one center the first iteration raises
    [IndexError] on [array.shape[1]]. *)
Theorem C3_only_negative_size_rejected array centers size :
  wf_ndarray array → Forall finite_center centers →
  (size < 0 → centers ≠ [] → extract_many array centers size = Raise ValueError) ∧
  (0 ≤ size → shape0 array ≠ 1 → shape1 array ≠ 1 →
   ∃ batch, extract_many array centers size = Ok batch ∧
            length batch = length centers ∧
            Forall (λ cut, shape0 cut = size ∧ shape1 cut = size) batch ∧
            (shape0 array = 0 ∨ shape1 array = 0 → Forall all_sentinel batch)) ∧
  (0 ≤ size → shape0 array = 1 ∨ shape1 array = 1 → centers ≠ [] →
   extract_many array centers size = Raise IndexError).
Proof.
  intros Hwf Hfin. split_and!.
  - intros Hsize Hne. destruct centers as [|c rest]; [done|].
    apply Forall_cons in Hfin as [Hc _]. by apply extract_many_negative_size.
  - intros Hsize Hs0 Hs1.
    destruct (extract_many_finite array centers size Hwf Hs0 Hs1 Hsize Hfin)
      as (batch & Hbatch & Hall).
    exists batch. split_and!; [done|by rewrite (Forall2_length _ _ _ Hall)| |].
    + apply Forall_lookup. intros k cut Hk.
      destruct (Forall2_lookup_r _ _ _ _ _ Hall Hk) as (c & Hc & Hok).
      apply (proj1 (Forall_lookup _ _) Hfin) in Hc.
      destruct (center_cutout_finite array size (size `div` 2) c Hs0 Hs1 Hc)
        as (xq & yq & _ & Heq).
      rewrite Heq in Hok.
      destruct (make_cutout_shape array size _ _ cut Hwf Hsize Hok) as (_ & ? & ? & _).
      done.
    + intros Hzero. apply Forall_lookup. intros k cut Hk.
      destruct (Forall2_lookup_r _ _ _ _ _ Hall Hk) as (c & Hc & Hok).
      apply (proj1 (Forall_lookup _ _) Hfin) in Hc.
      destruct (center_cutout_finite array size (size `div` 2) c Hs0 Hs1 Hc)
        as (xq & yq & _ & Heq).
      rewrite Heq in Hok. by eapply make_cutout_zero_dim.
  - intros Hsize Hunit Hne. destruct centers as [|c rest]; [done|].
    apply Forall_cons in Hfin as [Hc _]. by apply extract_many_unit_axis.
Qed.

Lemma C3_witness :
  extract_many raster5 [(Fin 0, Fin 0)] (-1) = Raise ValueError ∧
  (∃ batch, extract_many raster5 [(Fin 0, Fin 0)] 2 = Ok batch ∧
            length batch = length [(Fin 0, Fin 0)] ∧
            Forall (λ cut, shape0 cut = 2 ∧ shape1 cut = 2) batch ∧
            (shape0 raster5 = 0 ∨ shape1 raster5 = 0 → Forall all_sentinel batch)) ∧
  (∃ batch, extract_many (NDArray [] 5) [(Fin 0, Fin 0)] 0 = Ok batch ∧
            length batch = length [(Fin 0, Fin 0)] ∧
            Forall (λ cut, shape0 cut = 0 ∧ shape1 cut = 0) batch ∧
            (shape0 (NDArray [] 5) = 0 ∨ shape1 (NDArray [] 5) = 0 →
             Forall all_sentinel batch)) ∧
  extract_many raster_column [(Fin 0, Fin 1)] 3 = Raise IndexError.
Proof.
  split_and!.
  - apply (C3_only_negative_size_rejected raster5 [(Fin 0, Fin 0)] (-1)).
    + exact raster5_wf.
    + repeat constructor.
    + lia.
    + discriminate.
  - apply (C3_only_negative_size_rejected raster5 [(Fin 0, Fin 0)] 2).
    + exact raster5_wf.
    + repeat constructor.
    + lia.
    + vm_compute. discriminate.
    + vm_compute. discriminate.
  - apply (C3_only_negative_size_rejected (NDArray [] 5) [(Fin 0, Fin 0)] 0).
    + constructor.
    + repeat constructor.
    + lia.
    + vm_compute. discriminate.
    + vm_compute. discriminate.
  - apply (C3_only_negative_size_rejected raster_column [(Fin 0, Fin 1)] 3).
    + repeat constructor.
    + repeat constructor.
    + lia.
    + right. reflexivity.
    + discriminate.
Defined.

(** C4, counterexample: a NaN coordinate in the second center, or an
    infinite one in the first, makes the whole call raise; no cutout is
    returned for the finite centers either. *)
Lemma C4_counterexample :
  extract_many raster5 [(Fin 0, Fin 0); (NaN, Fin 2)] 3 = Raise ValueError ∧
  extract_many raster5 [(PosInf, Fin 0); (Fin 2, Fin 2)] 3 = Raise OverflowError.
Proof. vm_compute. done. Qed.

(** C4, as amended: a center with a non-finite coordinate is not absorbed.
    Rounding it raises, and the exception ends the whole call: whenever some
    center has a NaN or infinite coordinate, the call returns no batch. *)
Theorem C4_non_finite_center_fails_batch array centers size :
  Exists (λ c, ¬ finite_center c) centers →
  ∃ e, extract_many array centers size = Raise e.
Proof.
  intros Hex. rewrite extract_many_unfold. apply cutout_loop_Raise.
  eapply Exists_impl; [exact Hex|]. intros c Hc.
  by apply center_cutout_non_finite.
Qed.

Lemma C4_witness :
  ∃ e, extract_many raster5 [(Fin 0, Fin 0); (NaN, Fin 2)] 3 = Raise e.
Proof.
  apply (C4_non_finite_center_fails_batch raster5 [(Fin 0, Fin 0); (NaN, Fin 2)] 3).
  apply Exists_cons_tl, Exists_cons_hd. unfold finite_center. cbn. intros [? ?]. discriminate.
Defined.

(** ** The element accesses of one iteration *)

Lemma copy_plan_in_bounds dst_a dst src_a src :
  view_within dst dst_a → view_within src src_a →
  nr src = nr dst → nc src = nc dst →
  Forall (λ ds, in_bounds dst_a ds.1 = true ∧ in_bounds src_a ds.2 = true)
         (copy_plan dst src).
Proof.
  intros [? ?] [? ?] Hnr Hnc. apply Forall_forall. intros [d s] Hin.
  apply elem_of_copy_plan in Hin as (i & j & Hi & Hj & -> & ->).
  rewrite !bidx_same by lia.
  split; apply in_bounds_spec; cbn [fst snd]; lia.
Qed.

Lemma make_cutout_accesses array size x y :
  wf_ndarray array → 0 ≤ size →
  ∃ blank, np_full size size NaN = Ok blank ∧
           shape0 blank = size ∧ shape1 blank = size ∧
           match copy_views array blank (size `div` 2) x y with
           | Some (dst, src) =>
               make_cutout array size (size `div` 2) x y =
               run_plan (copy_plan dst src) array blank ∧
               view_within dst blank ∧ view_within src array ∧
               nr src = nr dst ∧ nc src = nc dst
           | None => make_cutout array size (size `div` 2) x y = Ok blank
           end.
Proof.
  intros Hwf Hsize. destruct (half_size_cases size Hsize) as [Hh Hcases].
  destruct (np_full_ok size size NaN Hsize Hsize) as (blank & Hblank & _ & H0 & H1 & _).
  exists blank. split_and!; [done..|].
  unfold make_cutout. rewrite Hblank. cbn [mbind result_bind].
  destruct (copy_views array blank (size `div` 2) x y) as [[dst src]|] eqn:Hcv; [|done].
  destruct (copy_views_Some array blank size _ x y Hh Hcases H0 H1 dst src Hcv)
    as (Hvd & Hvs & Hnr & Hnc & _).
  split_and!; [|done..].
  unfold assign, broadcast_ok. by rewrite Hnr, Hnc, !Z.eqb_refl.
Qed.

Lemma copy_views_center array blank size x y :
  1 ≤ size → shape0 blank = size → shape1 blank = size →
  in_bounds array (y, x) = true →
  ∃ dst src, copy_views array blank (size `div` 2) x y = Some (dst, src) ∧
             ((size `div` 2, size `div` 2), (y, x)) ∈ copy_plan dst src.
Proof.
  intros Hsize H0 H1 Hb. destruct (half_size_cases size ltac:(lia)) as [Hh Hcases].
  set (h := size `div` 2) in *.
  assert (Hhere : in_bounds array (h + y - h, h + x - h) = true).
  { by replace (h + y - h) with y by lia; replace (h + x - h) with x by lia. }
  destruct (copy_views array blank h x y) as [[dst src]|] eqn:Hcv.
  - exists dst, src. split; [done|].
    destruct (copy_views_Some array blank size h x y Hh Hcases H0 H1 dst src Hcv)
      as (_ & _ & Hnr & Hnc & Hr & Hc & Hiff).
    destruct (proj2 (Hiff h h ltac:(lia) ltac:(lia)) Hhere) as [Hrow Hcol].
    cbn [fst snd] in Hrow, Hcol.
    apply elem_of_copy_plan. exists (h - r0 dst), (h - c0 dst).
    rewrite !bidx_same by lia. split_and!; [lia..| |]; f_equal; lia.
  - rewrite (copy_views_None array blank size h x y Hh Hcases Hcv h h) in Hhere;
      [done|lia..].
Qed.

(** C5, counterexample: on an image of one row, with size 1 and the center
    (0, 0) on the raster, the call raises [IndexError]. *)
Lemma C5_counterexample :
  shape0 raster_row = 1 ∧ shape1 raster_row = 5 ∧
  extract_many raster_row [(Fin 0, Fin 0)] 1 = Raise IndexError.
Proof. vm_compute. done. Qed.

(** C5, as amended: for a raster with at least two rows and two columns, a
    positive odd size and finite centers, wherever the centers lie, the call
    returns a batch and raises nothing. The cutout of each center is the
    result of one copy into a fresh [size] x [size] array of NaN, or that
    array itself when the window misses the raster; the copy loads only
    from raster indices inside [0, height-1] x [0, width-1] and stores only
    to indices inside the [size] x [size] extent of the cutout. When the
    rounded center lies on the raster the copy does take place and carries
    the sample of that pixel to position ([half], [half]). *)
Theorem C5_no_fault_no_access_out_of_range array centers size :
  wf_ndarray array → 2 ≤ shape0 array → 2 ≤ shape1 array →
  0 < size → Z.odd size = true →
  Forall finite_center centers →
  ∃ batch, extract_many array centers size = Ok batch ∧
    ∀ k xq yq, centers !! k = Some (Fin xq, Fin yq) →
      let half := size `div` 2 in
      let x := round_half_even xq in
      let y := round_half_even yq in
      ∃ cutout blank,
        batch !! k = Some cutout ∧ np_full size size NaN = Ok blank ∧
        shape0 blank = size ∧ shape1 blank = size ∧
        match copy_views array blank half x y with
        | Some (dst, src) =>
            run_plan (copy_plan dst src) array blank = Ok cutout ∧
            Forall (λ ds, (0 ≤ ds.1.1 < size ∧ 0 ≤ ds.1.2 < size) ∧
                          (0 ≤ ds.2.1 < shape0 array ∧ 0 ≤ ds.2.2 < shape1 array))
                   (copy_plan dst src)
        | None => cutout = blank
        end ∧
        (in_bounds array (y, x) = true →
         ∃ dst src, copy_views array blank half x y = Some (dst, src) ∧
                    ((half, half), (y, x)) ∈ copy_plan dst src).
Proof.
  intros Hwf Hs0 Hs1 Hsize _ Hfin.
  destruct (extract_many_finite array centers size Hwf ltac:(lia) ltac:(lia)
              ltac:(lia) Hfin) as (batch & Hbatch & Hall).
  exists batch. split; [done|]. intros k xq yq Hk. cbv zeta.
  destruct (Forall2_lookup_l _ _ _ _ _ Hall Hk) as (cutout & Hcut & Hok).
  rewrite center_cutout_Fin in Hok by lia.
  destruct (make_cutout_accesses array size (round_half_even xq) (round_half_even yq)
              Hwf ltac:(lia)) as (blank & Hblank & H0 & H1 & Hacc).
  exists cutout, blank. split_and!; [done..| |].
  - destruct (copy_views array blank _ _ _) as [[dst src]|].
    + destruct Hacc as (Hrun & Hvd & Hvs & Hnr & Hnc). split; [congruence|].
      eapply Forall_impl; [by apply (copy_plan_in_bounds blank dst array src)|].
      intros [d s] [Hd%in_bounds_spec Hs%in_bounds_spec].
      rewrite H0, H1 in Hd. done.
    + congruence.
  - intros Hb. by apply (copy_views_center array blank size); [lia|..].
Qed.

Lemma C5_witness :
  ∃ batch, extract_many raster5 [(Fin 0, Fin 0)] 3 = Ok batch ∧
    ∀ k xq yq, [(Fin 0, Fin 0)] !! k = Some (Fin xq, Fin yq) →
      let half := 3 `div` 2 in
      let x := round_half_even xq in
      let y := round_half_even yq in
      ∃ cutout blank,
        batch !! k = Some cutout ∧ np_full 3 3 NaN = Ok blank ∧
        shape0 blank = 3 ∧ shape1 blank = 3 ∧
        match copy_views raster5 blank half x y with
        | Some (dst, src) =>
            run_plan (copy_plan dst src) raster5 blank = Ok cutout ∧
            Forall (λ ds, (0 ≤ ds.1.1 < 3 ∧ 0 ≤ ds.1.2 < 3) ∧
                          (0 ≤ ds.2.1 < shape0 raster5 ∧ 0 ≤ ds.2.2 < shape1 raster5))
                   (copy_plan dst src)
        | None => cutout = blank
        end ∧
        (in_bounds raster5 (y, x) = true →
         ∃ dst src, copy_views raster5 blank half x y = Some (dst, src) ∧
                    ((half, half), (y, x)) ∈ copy_plan dst src).
Proof.
  apply (C5_no_fault_no_access_out_of_range raster5 [(Fin 0, Fin 0)] 3).
  - exact raster5_wf.
  - vm_compute. discriminate.
  - vm_compute. discriminate.
  - lia.
  - reflexivity.
  - repeat constructor.
Defined.

(** C6: on the 5 x 5 raster of 0..24 with size 3, the cutout of center
    (0, 0) has NaN in its whole first row and whole first column, the ones
    that map to raster index -1, and the raster values [[0, 1], [5, 6]] in
    the opposite 2 x 2 corner; the cutout of center (2, 2) is the middle
    block [[6, 7, 8], [11, 12, 13], [16, 17, 18]] without any NaN. *)
Theorem C6_corner_and_middle_of_raster5 :
  raster5 =
    float64_array
      [[Fin 0; Fin 1; Fin 2; Fin 3; Fin 4];
       [Fin 5; Fin 6; Fin 7; Fin 8; Fin 9];
       [Fin 10; Fin 11; Fin 12; Fin 13; Fin 14];
       [Fin 15; Fin 16; Fin 17; Fin 18; Fin 19];
       [Fin 20; Fin 21; Fin 22; Fin 23; Fin 24]] 5 ∧
  extract_many raster5 [(Fin 0, Fin 0)] 3 =
    Ok [float64_array [[NaN; NaN; NaN];
                       [NaN; Fin 0; Fin 1];
                       [NaN; Fin 5; Fin 6]] 3] ∧
  extract_many raster5 [(Fin 2, Fin 2)] 3 =
    Ok [float64_array [[Fin 6; Fin 7; Fin 8];
                       [Fin 11; Fin 12; Fin 13];
                       [Fin 16; Fin 17; Fin 18]] 3].
Proof. vm_compute. done. Qed.

(** ** The re-clamp of lines 68-69 *)

Lemma axis_overlap_odd L size h p :
  0 ≤ L → 0 ≤ h → size = 2 * h + 1 →
  let a_start := Z.max 0 (p - h) in
  let a_end := Z.min L (p + h + 1) in
  let c_start := Z.max 0 (h - p) in
  let c_end := c_start + (a_end - a_start) in
  (a_end >? a_start) = true →
  0 ≤ (slice_range a_start a_end L).2 ∧
  (slice_range c_start c_end size).2 = (slice_range a_start a_end L).2.
Proof.
  intros HL Hh Hsize a_start a_end c_start c_end Hov%Z.gtb_gt.
  rewrite !slice_range_nonneg by lia. cbn [snd]. lia.
Qed.

Lemma slice2_whole_view v : 0 ≤ nr v → 0 ≤ nc v → slice2 v 0 (nr v) 0 (nc v) = v.
Proof.
  intros Hr Hc. destruct v as [r n c m]. cbn [nr nc] in *.
  unfold slice2. cbn [nr nc r0 c0]. rewrite !slice_range_nonneg by lia. f_equal; lia.
Qed.

Lemma clamp_same_shape cr ar :
  0 ≤ nr ar → 0 ≤ nc ar → nr cr = nr ar → nc cr = nc ar → clamp cr ar = (cr, ar).
Proof.
  intros Hr Hc Hnr Hnc. unfold clamp. rewrite Hnr, Hnc, !Z.min_id.
  rewrite <- Hnr at 1. rewrite <- Hnc at 1.
  rewrite !slice2_whole_view by lia. done.
Qed.

Lemma regions_odd_same_shape array blank size x y cr ar :
  0 < size → Z.odd size = true →
  shape0 blank = size → shape1 blank = size →
  regions array blank (size `div` 2) x y = Some (cr, ar) →
  (0 ≤ nr ar ∧ 0 ≤ nc ar) ∧ nr cr = nr ar ∧ nc cr = nc ar.
Proof.
  intros Hsize Hodd H0 H1. unfold regions.
  destruct (_ >? _) eqn:Hx; [|done]. destruct (_ >? _) eqn:Hy in |- *; [|done].
  cbn [andb]. intros [= <- <-].
  assert (Hh : 0 ≤ size `div` 2 ∧ size = 2 * (size `div` 2) + 1).
  { apply Z.odd_spec in Hodd as [m ->].
    replace (2 * m + 1) with (1 + m * 2) by lia. rewrite Z.div_add by lia.
    change (1 `div` 2) with 0. lia. }
  destruct Hh as [Hh Hs].
  destruct (axis_overlap_odd (shape0 array) (shape0 blank) (size `div` 2) y)
    as [Gy0 Gy]; [unfold shape0; lia|done|congruence|done|].
  destruct (axis_overlap_odd (shape1 array) (shape1 blank) (size `div` 2) x)
    as [Gx0 Gx]; [unfold shape1; lia|done|congruence|done|].
  split_and!; [exact Gy0|exact Gx0|exact Gy|exact Gx].
Qed.

(** C7: for a positive odd size and a finite center, whenever the two
    regions are taken (the window meets the raster), the region of the
    cutout and the region of the raster have the same number of rows and the
    same number of columns, so cutting both down to the smaller shape gives
    back the same two regions; the loop body without the re-clamp returns
    the same result as the loop body with it. *)
Theorem C7_reclamp_changes_nothing array size xq yq :
  0 < size → Z.odd size = true →
  let half := size `div` 2 in
  let x := round_half_even xq in
  let y := round_half_even yq in
  (∀ blank cutout_region array_region,
     np_full size size NaN = Ok blank →
     regions array blank half x y = Some (cutout_region, array_region) →
     nr cutout_region = nr array_region ∧ nc cutout_region = nc array_region ∧
     clamp cutout_region array_region = (cutout_region, array_region)) ∧
  make_cutout_unclamped array size half x y = make_cutout array size half x y.
Proof.
  intros Hsize Hodd. cbv zeta.
  assert (Hregions : ∀ blank cr ar,
            np_full size size NaN = Ok blank →
            regions array blank (size `div` 2) (round_half_even xq) (round_half_even yq)
            = Some (cr, ar) →
            nr cr = nr ar ∧ nc cr = nc ar ∧ clamp cr ar = (cr, ar)).
  { intros blank cr ar Hblank Hreg.
    destruct (np_full_ok size size NaN ltac:(lia) ltac:(lia))
      as (blank' & Hblank' & _ & H0 & H1 & _).
    assert (blank' = blank) as -> by congruence.
    destruct (regions_odd_same_shape array blank size _ _ cr ar Hsize Hodd H0 H1 Hreg)
      as ([? ?] & Hnr & Hnc).
    split_and!; [done..|]. by apply clamp_same_shape. }
  split; [exact Hregions|].
  unfold make_cutout_unclamped, make_cutout, copy_views.
  destruct (np_full size size NaN) as [blank|] eqn:Hblank; [|done].
  cbn [mbind result_bind].
  destruct (regions array blank _ _ _) as [[cr ar]|] eqn:Hreg; [|done].
  destruct (Hregions blank cr ar eq_refl Hreg) as (_ & _ & ->). done.
Qed.

Lemma C7_witness :
  let half := 3 `div` 2 in
  let x := round_half_even 0 in
  let y := round_half_even 0 in
  (∀ blank cutout_region array_region,
     np_full 3 3 NaN = Ok blank →
     regions raster5 blank half x y = Some (cutout_region, array_region) →
     nr cutout_region = nr array_region ∧ nc cutout_region = nc array_region ∧
     clamp cutout_region array_region = (cutout_region, array_region)) ∧
  make_cutout_unclamped raster5 3 half x y = make_cutout raster5 3 half x y.
Proof.
  apply (C7_reclamp_changes_nothing raster5 3 0 0).
  - lia.
  - reflexivity.
Defined.

(** ** Rounding of the center *)

Section rounding.
Local Open Scope Q_scope.

Lemma Qabs_ge_l x d : d <= x -> d <= Qabs x.
Proof. intros H. eapply Qle_trans; [exact H|apply Qle_Qabs]. Qed.

Lemma Qabs_ge_r x d : d <= - x -> d <= Qabs x.
Proof. intros H. rewrite <- Qabs_opp. by apply Qabs_ge_l. Qed.

Lemma Qfloor_bounds q : inject_Z (Qfloor q) <= q /\ q < inject_Z (Qfloor q) + 1.
Proof.
  split; [apply Qfloor_le|].
  pose proof (Qlt_floor q) as H. rewrite inject_Z_plus in H. exact H.
Qed.

Lemma inject_Z_succ n : inject_Z (n + 1) == inject_Z n + 1.
Proof. rewrite inject_Z_plus. reflexivity. Qed.

Lemma inject_Z_apart n m : n ≠ m -> inject_Z n + 1 <= inject_Z m \/ inject_Z m + 1 <= inject_Z n.
Proof.
  intros Hne. destruct (Z.lt_ge_cases n m) as [Hlt|Hge].
  - left. rewrite <- inject_Z_succ, <- Zle_Qle. lia.
  - right. rewrite <- inject_Z_succ, <- Zle_Qle. lia.
Qed.

Lemma round_half_even_case q : rounding_case q (round_half_even q).
Proof.
  unfold round_half_even.
  destruct (Qcompare_spec (q - inject_Z (Qfloor q)) (1 # 2)) as [Heq|Hlt|Hgt].
  - destruct (Z.even (Qfloor q)) eqn:He; [by apply round_tie_even|by apply round_tie_odd].
  - by apply round_down.
  - by apply round_up.
Qed.

Lemma round_half_even_near q : Qabs (q - inject_Z (round_half_even q)) <= 1 # 2.
Proof.
  destruct (Qfloor_bounds q) as [Hlo Hhi]. apply Qabs_Qle_condition.
  destruct (round_half_even_case q); rewrite ?inject_Z_succ; split; lra.
Qed.

Lemma round_half_even_nearest q n :
  Qabs (q - inject_Z (round_half_even q)) <= Qabs (q - inject_Z n).
Proof.
  destruct (decide (n = round_half_even q)) as [->|Hne]; [apply Qle_refl|].
  apply inject_Z_apart in Hne as Hn.
  pose proof (round_half_even_near q) as Hnear.
  apply Qabs_Qle_condition in Hnear as [H1 H2].
  destruct Hn as [Hn|Hn].
  - apply Qle_trans with (1 # 2); [apply Qabs_Qle_condition; split; lra|].
    apply Qabs_ge_l; lra.
  - apply Qle_trans with (1 # 2); [apply Qabs_Qle_condition; split; lra|].
    apply Qabs_ge_r; lra.
Qed.

Lemma round_half_even_tie q :
  Qabs (q - inject_Z (round_half_even q)) == 1 # 2 -> Z.even (round_half_even q) = true.
Proof.
  destruct (Qfloor_bounds q) as [Hlo Hhi]. intros Habs.
  destruct (round_half_even_case q) as [Hlt|Hgt|Heq He|Heq He].
  - rewrite Qabs_pos in Habs by lra. lra.
  - rewrite inject_Z_succ in Habs. rewrite Qabs_neg in Habs by lra. lra.
  - exact He.
  - rewrite Z.add_1_r, Z.even_succ, <- Z.negb_even, He. done.
Qed.

Lemma round_half_even_unique q n :
  Qabs (q - inject_Z n) < 1 # 2 -> round_half_even q = n.
Proof.
  intros Hn. destruct (decide (round_half_even q = n)) as [|Hne]; [done|].
  exfalso. apply inject_Z_apart in Hne.
  pose proof (round_half_even_near q) as Hnear.
  apply Qabs_Qle_condition in Hnear as [H1 H2].
  apply Qabs_Qlt_condition in Hn as [H3 H4].
  destruct Hne; lra.
Qed.

Lemma round_half_even_inject_Z n : round_half_even (inject_Z n) = n.
Proof. apply round_half_even_unique, Qabs_Qlt_condition. split; lra. Qed.
End rounding.

(** C8: a finite coordinate is rounded to a nearest integer: the result is
    within 1/2 of the coordinate and no integer is closer. When the
    coordinate lies exactly half way between two integers the result is the
    even one: 2.5 gives 2 and 3.5 gives 4. The call applies this one rule to
    x and to y of every center: on any image and for any size, the call on
    a list of finite centers does what it does on the list of their rounded
    coordinates, and the call on one center (x, y) returns what the loop
    body returns at the rounded x and the rounded y. On the 5 x 5 raster of
    0..24 with size 1, the center (2.5, 3.5) gives the sample of row 4,
    column 2 and the center (3.5, 2.5) the sample of row 2, column 4. *)
Theorem C8_round_half_to_even xq yq :
  (Qabs (xq - inject_Z (round_half_even xq)) <= 1 # 2)%Q ∧
  (∀ n, (Qabs (xq - inject_Z (round_half_even xq)) <= Qabs (xq - inject_Z n))%Q) ∧
  ((Qabs (xq - inject_Z (round_half_even xq)) == 1 # 2)%Q →
   Z.even (round_half_even xq) = true) ∧
  (round_half_even (5 # 2) = 2 ∧ round_half_even (7 # 2) = 4 ∧
   round_half_even (1 # 2) = 0 ∧ round_half_even (3 # 2) = 2 ∧
   round_half_even (-1 # 2) = 0 ∧ round_half_even (-5 # 2) = -2) ∧
  (∀ array size (centers : list (Q * Q)),
     extract_many array ((λ c, (Fin c.1, Fin c.2)) <$> centers) size =
     extract_many array
       ((λ c, (Fin (inject_Z (round_half_even c.1)),
               Fin (inject_Z (round_half_even c.2)))) <$> centers) size) ∧
  (∀ array size,
     extract_many array [(Fin xq, Fin yq)] size =
     cut ← make_cutout_squeezed (np_squeeze array) size (size `div` 2)
             (round_half_even xq) (round_half_even yq);
     Ok [cut]) ∧
  extract_many raster5 [(Fin (5 # 2), Fin (7 # 2))] 1 = Ok [float64_array [[Fin 22]] 1] ∧
  extract_many raster5 [(Fin (7 # 2), Fin (5 # 2))] 1 = Ok [float64_array [[Fin 14]] 1].
Proof.
  split_and!;
    [apply round_half_even_near|apply round_half_even_nearest
    |apply round_half_even_tie|reflexivity..| | |by vm_compute|by vm_compute].
  - intros array size centers. rewrite !extract_many_unfold.
    apply cutout_loop_ext, Forall2_fmap, Forall_Forall2_diag, Forall_forall.
    intros [x y] _. by rewrite !iteration_Fin, !round_half_even_inject_Z.
  - intros array size. rewrite extract_many_unfold, cutout_loop_cons, iteration_Fin.
    by destruct (make_cutout_squeezed _ _ _ _ _).
Qed.

(** ** Order of the batch *)

Lemma permute_Forall2 {A B} (R : A → B → Prop) (l : list A) (k : list B) p :
  Forall2 R l k → Forall2 R (permute p l) (permute p k).
Proof.
  intros Hlk. unfold permute. induction p as [|i p IH]; [constructor|].
  cbn [omap list_omap].
  pose proof (proj1 (Forall2_lookup R l k) Hlk i) as Hi.
  destruct Hi; [by constructor|done].
Qed.

Lemma permute_seq_app {A} (pre l : list A) :
  permute (seq (length pre) (length l)) (pre ++ l) = l.
Proof.
  revert pre. induction l as [|x l IH]; intros pre; [done|].
  unfold permute in *. cbn [length seq omap list_omap].
  rewrite list_lookup_middle by done. f_equal.
  specialize (IH (pre ++ [x])).
  rewrite length_app, Nat.add_1_r, <- app_assoc in IH. exact IH.
Qed.

Lemma permute_seq {A} (l : list A) : permute (seq 0 (length l)) l = l.
Proof. apply (permute_seq_app [] l). Qed.

Lemma permute_Permutation {A} (l : list A) p :
  p ≡ₚ seq 0 (length l) → permute p l ≡ₚ l.
Proof.
  intros Hp. unfold permute. rewrite Hp. fold (permute (seq 0 (length l)) l).
  by rewrite permute_seq.
Qed.

(** C9: when the call returns a batch, the batch is as long as the list of
    centers and its element at position [i] is the result of the loop body
    on the center at position [i], for the given raster and size and nothing
    else. Hence the call on the centers rearranged by a permutation [p] of
    the positions returns the batch rearranged by the same [p]. *)
Theorem C9_order_preserved array centers size batch p :
  extract_many array centers size = Ok batch →
  p ≡ₚ seq 0 (length centers) →
  length batch = length centers ∧
  (∀ i c, centers !! i = Some c →
          ∃ cut, center_cutout array size (size `div` 2) c = Ok cut ∧
                 batch !! i = Some cut) ∧
  permute p centers ≡ₚ centers ∧
  extract_many array (permute p centers) size = Ok (permute p batch).
Proof.
  intros Hall%extract_many_Ok Hp. split_and!.
  - by rewrite (Forall2_length _ _ _ Hall).
  - intros i c Hi. destruct (Forall2_lookup_l _ _ _ _ _ Hall Hi) as (cut & ? & ?).
    by exists cut.
  - by apply permute_Permutation.
  - apply extract_many_Ok. by apply permute_Forall2.
Qed.

Lemma C9_witness :
  length [float64_array [[NaN; NaN; NaN]; [NaN; Fin 0; Fin 1]; [NaN; Fin 5; Fin 6]] 3;
          float64_array [[Fin 6; Fin 7; Fin 8]; [Fin 11; Fin 12; Fin 13];
                         [Fin 16; Fin 17; Fin 18]] 3]
  = length [(Fin 0, Fin 0); (Fin 2, Fin 2)] ∧
  (∀ i c, [(Fin 0, Fin 0); (Fin 2, Fin 2)] !! i = Some c →
          ∃ cut, center_cutout raster5 3 (3 `div` 2) c = Ok cut ∧
                 [float64_array [[NaN; NaN; NaN]; [NaN; Fin 0; Fin 1];
                                 [NaN; Fin 5; Fin 6]] 3;
                  float64_array [[Fin 6; Fin 7; Fin 8]; [Fin 11; Fin 12; Fin 13];
                                 [Fin 16; Fin 17; Fin 18]] 3] !! i = Some cut) ∧
  permute [1; 0]%nat [(Fin 0, Fin 0); (Fin 2, Fin 2)] ≡ₚ [(Fin 0, Fin 0); (Fin 2, Fin 2)] ∧
  extract_many raster5 (permute [1; 0]%nat [(Fin 0, Fin 0); (Fin 2, Fin 2)]) 3 =
  Ok (permute [1; 0]%nat
        [float64_array [[NaN; NaN; NaN]; [NaN; Fin 0; Fin 1]; [NaN; Fin 5; Fin 6]] 3;
         float64_array [[Fin 6; Fin 7; Fin 8]; [Fin 11; Fin 12; Fin 13];
                        [Fin 16; Fin 17; Fin 18]] 3]).
Proof.
  apply (C9_order_preserved raster5 [(Fin 0, Fin 0); (Fin 2, Fin 2)] 3).
  - vm_compute. reflexivity.
  - apply perm_swap.
Defined.

(** ** Even sizes *)

Lemma even_half size :
  0 ≤ size → Z.even size = true → 0 ≤ size `div` 2 ∧ size = 2 * (size `div` 2).
Proof.
  intros Hsize [m ->]%Z.even_spec.
  replace (2 * m) with (m * 2) by lia. rewrite Z.div_mul by lia. lia.
Qed.

Lemma axis_even_interior L size h p :
  0 ≤ h → size = 2 * h → h ≤ p → p + h + 1 ≤ L →
  let a_start := Z.max 0 (p - h) in
  let a_end := Z.min L (p + h + 1) in
  let c_start := Z.max 0 (h - p) in
  let c_end := c_start + (a_end - a_start) in
  let creg := slice_range c_start c_end size in
  let areg := slice_range a_start a_end L in
  let m := Z.min creg.2 areg.2 in
  areg.2 = size + 1 ∧ (slice_range 0 m creg.2).2 = size.
Proof.
  intros Hh Hsize Hlo Hhi a_start a_end c_start c_end creg areg m.
  assert (Hcreg : creg = (0, size)).
  { unfold creg. rewrite slice_range_nonneg by lia. f_equal; lia. }
  assert (Hareg : areg = (p - h, size + 1)).
  { unfold areg. rewrite slice_range_nonneg by lia. f_equal; lia. }
  assert (Hm : m = size) by (unfold m; rewrite Hcreg, Hareg; cbn [snd]; lia).
  rewrite Hm, Hcreg, Hareg. cbn [snd]. split; [done|].
  rewrite slice_range_nonneg by lia. cbn [snd]. lia.
Qed.

Lemma regions_even_interior array blank size h x y cr ar dst src :
  0 ≤ h → size = 2 * h → shape0 blank = size → shape1 blank = size →
  regions array blank h x y = Some (cr, ar) →
  clamp cr ar = (dst, src) →
  (h ≤ y ∧ y + h + 1 ≤ shape0 array → nr ar = size + 1 ∧ nr dst = size) ∧
  (h ≤ x ∧ x + h + 1 ≤ shape1 array → nc ar = size + 1 ∧ nc dst = size).
Proof.
  intros Hh Hs H0 H1. unfold regions. destruct (_ && _); [|done].
  intros [= <- <-]. unfold clamp. intros [= <- _]. split; intros [Hlo Hhi].
  - rewrite <- H0. rewrite <- H0 in Hs.
    exact (axis_even_interior (shape0 array) (shape0 blank) h y Hh Hs Hlo Hhi).
  - rewrite <- H1. rewrite <- H1 in Hs.
    exact (axis_even_interior (shape1 array) (shape1 blank) h x Hh Hs Hlo Hhi).
Qed.

Lemma regions_even_window array blank size h x y :
  0 < h → size = 2 * h → shape0 blank = size → shape1 blank = size →
  h ≤ x → x + h + 1 ≤ shape1 array → h ≤ y → y + h + 1 ≤ shape0 array →
  regions array blank h x y =
    Some (View 0 size 0 size, View (y - h) (size + 1) (x - h) (size + 1)) ∧
  clamp (View 0 size 0 size) (View (y - h) (size + 1) (x - h) (size + 1)) =
    (View 0 size 0 size, View (y - h) size (x - h) size).
Proof.
  intros Hh Hs H0 H1 Hx0 Hx1 Hy0 Hy1. split.
  - unfold regions. cbv zeta.
    replace (Z.max 0 (x - h)) with (x - h) by lia.
    replace (Z.min (shape1 array) (x + h + 1)) with (x + h + 1) by lia.
    replace (Z.max 0 (y - h)) with (y - h) by lia.
    replace (Z.min (shape0 array) (y + h + 1)) with (y + h + 1) by lia.
    replace (Z.max 0 (h - x)) with 0 by lia.
    replace (Z.max 0 (h - y)) with 0 by lia.
    replace (x + h + 1 - (x - h)) with (size + 1) by lia.
    replace (y + h + 1 - (y - h)) with (size + 1) by lia.
    rewrite (proj2 (Z.gtb_gt (x + h + 1) (x - h))) by lia.
    rewrite (proj2 (Z.gtb_gt (y + h + 1) (y - h))) by lia.
    cbn [andb]. unfold slice2, whole. cbn [nr nc r0 c0]. rewrite H0, H1.
    rewrite !slice_range_nonneg by lia. do 2 f_equal; f_equal; lia.
  - unfold clamp, slice2. cbn [nr nc r0 c0].
    replace (Z.min size (size + 1)) with size by lia.
    rewrite !slice_range_nonneg by lia. do 2 f_equal; lia.
Qed.

(** C10, counterexample: with the even size 2 the call on an image of one
    row raises [IndexError]. *)
Lemma C10_counterexample :
  Z.even 2 = true ∧ shape0 raster_row = 1 ∧ shape1 raster_row = 5 ∧
  extract_many raster_row [(Fin 0, Fin 0)] 2 = Raise IndexError.
Proof. vm_compute. done. Qed.

(** C10, as amended: for an even size of at least 2 and a raster none of
    whose two dimensions is 1, the call raises nothing either. With
    [half = size // 2] the window of a center spans [size + 1] raster
    indices on each axis, and the call on finite centers returns one cutout
    of [size] x [size] elements per center, which holds at (i, j) the cast
    sample of row [round y - half + i], column [round x - half + j] of the
    raster where that index is valid and NaN elsewhere. In each iteration the
    copy is the one between the two regions cut down to their smaller shape;
    it stores only inside the [size] x [size] extent of the cutout, and when
    the window lies inside the raster along an axis, the region of the
    raster has [size + 1] indices on that axis while the copied region has
    [size]: the extra row and the extra column are dropped. For a window
    that lies inside the raster the two regions are taken: the region of
    the cutout is the whole cutout, the region of the raster has
    [size + 1] rows and columns from (y - half, x - half), the copied part
    of it its first [size] rows and columns, and without the cut to the
    smaller shape the assignment raises [ValueError]. *)
Theorem C10_even_size_truncated array centers size :
  wf_ndarray array → shape0 array ≠ 1 → shape1 array ≠ 1 →
  2 ≤ size → Z.even size = true →
  Forall finite_center centers →
  let half := size `div` 2 in
  (∀ x, (x + half + 1) - (x - half) = size + 1) ∧
  (∃ batch, extract_many array centers size = Ok batch ∧
            length batch = length centers ∧
            Forall (λ cut, wf_ndarray cut ∧ shape0 cut = size ∧ shape1 cut = size ∧
                           Z.of_nat (length (concat (data cut))) = size * size) batch ∧
            ∀ k xq yq, centers !! k = Some (Fin xq, Fin yq) →
              ∃ cutout, batch !! k = Some cutout ∧
                ∀ i j, 0 ≤ i < size → 0 ≤ j < size →
                  lookup2 cutout (i, j) =
                  if in_bounds array (round_half_even yq - half + i,
                                      round_half_even xq - half + j)
                  then SFloat ∘ as_float64 <$>
                       lookup2 array (round_half_even yq - half + i,
                                      round_half_even xq - half + j)
                  else Some (SFloat NaN)) ∧
  (∀ x y blank cutout_region array_region dst src,
    np_full size size NaN = Ok blank →
    regions array blank half x y = Some (cutout_region, array_region) →
    clamp cutout_region array_region = (dst, src) →
    make_cutout array size half x y = run_plan (copy_plan dst src) array blank ∧
    Forall (λ ds, 0 ≤ ds.1.1 < size ∧ 0 ≤ ds.1.2 < size) (copy_plan dst src) ∧
    (half ≤ y ∧ y + half + 1 ≤ shape0 array →
     nr array_region = size + 1 ∧ nr dst = size) ∧
    (half ≤ x ∧ x + half + 1 ≤ shape1 array →
     nc array_region = size + 1 ∧ nc dst = size)) ∧
  (∀ x y, half ≤ x → x + half + 1 ≤ shape1 array →
          half ≤ y → y + half + 1 ≤ shape0 array →
     ∃ blank,
       np_full size size NaN = Ok blank ∧
       regions array blank half x y =
         Some (View 0 size 0 size, View (y - half) (size + 1) (x - half) (size + 1)) ∧
       clamp (View 0 size 0 size) (View (y - half) (size + 1) (x - half) (size + 1)) =
         (View 0 size 0 size, View (y - half) size (x - half) size) ∧
       make_cutout_unclamped array size half x y = Raise ValueError).
Proof.
  intros Hwf Hs0 Hs1 Hsize Heven Hfin. cbv zeta.
  destruct (even_half size ltac:(lia) Heven) as [Hh Hs].
  split_and!.
  - intros x. lia.
  - destruct (batch_shape array centers size Hwf Hs0 Hs1 ltac:(lia) Hfin)
      as (batch & Hbatch & Hlen & Hshape).
    destruct (batch_lookup array centers size Hwf Hs0 Hs1 ltac:(lia) Hfin)
      as (batch' & Hbatch' & Hall).
    assert (batch' = batch) as -> by congruence.
    exists batch. split_and!; [done..|].
    intros k xq yq Hk. destruct (Hall k xq yq Hk) as (cutout & Hcut & _ & _ & _ & Hlk).
    by exists cutout.
  - intros x y blank cr ar dst src Hblank Hreg Hclamp.
    destruct (make_cutout_accesses array size x y Hwf ltac:(lia))
      as (blank' & Hblank' & H0 & H1 & Hacc).
    assert (blank' = blank) as -> by congruence.
    unfold copy_views in Hacc. rewrite Hreg, Hclamp in Hacc.
    destruct Hacc as (Hrun & Hvd & Hvs & Hnr & Hnc).
    split; [done|]. split.
    + eapply Forall_impl; [by apply (copy_plan_in_bounds blank dst array src)|].
      intros [d s] [Hd%in_bounds_spec _]. rewrite H0, H1 in Hd. done.
    + by apply (regions_even_interior array blank size (size `div` 2) x y
                  cr ar dst src).
  - intros x y Hx0 Hx1 Hy0 Hy1.
    destruct (np_full_ok size size NaN ltac:(lia) ltac:(lia))
      as (blank & Hblank & _ & H0 & H1 & _).
    destruct (regions_even_window array blank size (size `div` 2) x y
                ltac:(lia) Hs H0 H1 Hx0 Hx1 Hy0 Hy1) as [Hreg Hclamp].
    exists blank. split_and!; [done..|].
    unfold make_cutout_unclamped. rewrite Hblank. cbn [mbind result_bind].
    rewrite Hreg. unfold assign, broadcast_ok. cbn [nr nc].
    rewrite (proj2 (Z.eqb_neq (size + 1) size)) by lia.
    rewrite (proj2 (Z.eqb_neq (size + 1) 1)) by lia. done.
Qed.

Lemma C10_witness :
  let half := 2 `div` 2 in
  (∀ x, (x + half + 1) - (x - half) = 2 + 1) ∧
  (∃ batch, extract_many raster5 [(Fin 2, Fin 2)] 2 = Ok batch ∧
            length batch = length [(Fin 2, Fin 2)] ∧
            Forall (λ cut, wf_ndarray cut ∧ shape0 cut = 2 ∧ shape1 cut = 2 ∧
                           Z.of_nat (length (concat (data cut))) = 2 * 2) batch ∧
            ∀ k xq yq, [(Fin 2, Fin 2)] !! k = Some (Fin xq, Fin yq) →
              ∃ cutout, batch !! k = Some cutout ∧
                ∀ i j, 0 ≤ i < 2 → 0 ≤ j < 2 →
                  lookup2 cutout (i, j) =
                  if in_bounds raster5 (round_half_even yq - half + i,
                                        round_half_even xq - half + j)
                  then SFloat ∘ as_float64 <$>
                       lookup2 raster5 (round_half_even yq - half + i,
                                        round_half_even xq - half + j)
                  else Some (SFloat NaN)) ∧
  (∀ x y blank cutout_region array_region dst src,
    np_full 2 2 NaN = Ok blank →
    regions raster5 blank half x y = Some (cutout_region, array_region) →
    clamp cutout_region array_region = (dst, src) →
    make_cutout raster5 2 half x y = run_plan (copy_plan dst src) raster5 blank ∧
    Forall (λ ds, 0 ≤ ds.1.1 < 2 ∧ 0 ≤ ds.1.2 < 2) (copy_plan dst src) ∧
    (half ≤ y ∧ y + half + 1 ≤ shape0 raster5 →
     nr array_region = 2 + 1 ∧ nr dst = 2) ∧
    (half ≤ x ∧ x + half + 1 ≤ shape1 raster5 →
     nc array_region = 2 + 1 ∧ nc dst = 2)) ∧
  (∀ x y, half ≤ x → x + half + 1 ≤ shape1 raster5 →
          half ≤ y → y + half + 1 ≤ shape0 raster5 →
     ∃ blank,
       np_full 2 2 NaN = Ok blank ∧
       regions raster5 blank half x y =
         Some (View 0 2 0 2, View (y - half) (2 + 1) (x - half) (2 + 1)) ∧
       clamp (View 0 2 0 2) (View (y - half) (2 + 1) (x - half) (2 + 1)) =
         (View 0 2 0 2, View (y - half) 2 (x - half) 2) ∧
       make_cutout_unclamped raster5 2 half x y = Raise ValueError).
Proof.
  apply (C10_even_size_truncated raster5 [(Fin 2, Fin 2)] 2).
  - exact raster5_wf.
  - vm_compute. discriminate.
  - vm_compute. discriminate.
  - lia.
  - reflexivity.
  - repeat constructor.
Defined.

(** With size 2 and center (2, 2) the window covers rows and columns 1..3 of
    the raster; rows and columns 1..2 are copied. Without the re-clamp the
    assignment of a 3 x 3 region to a 2 x 2 region raises. *)
Example even_size_on_raster5 :
  extract_many raster5 [(Fin 2, Fin 2)] 2 =
    Ok [float64_array [[Fin 6; Fin 7]; [Fin 11; Fin 12]] 2] ∧
  make_cutout_unclamped raster5 2 1 2 2 = Raise ValueError.
Proof. vm_compute. done. Qed.

(** A center far off a 100 x 100 raster gives a cutout of NaN only. *)
Example far_center_on_raster100 :
  extract_many (float64_array (replicate 100 (replicate 100 (Fin 1))) 100)
               [(Fin (-1000), Fin (-1000))] 3 =
    Ok [float64_array (replicate 3 (replicate 3 NaN)) 3].
Proof. vm_compute. done. Qed.

(** * Further properties of [make_multiple_cutouts] *)

(** X1: for every size that is not negative, odd or even, and every raster
    none of whose two dimensions is 1, the cutout of a finite center (x, y)
    holds at position (i, j) the float64 cast of the raster sample at row
    [round y - size // 2 + i] and column [round x - size // 2 + j] when that
    index is valid, and NaN otherwise: the window starts [size // 2] pixels
    before the rounded center on both axes, whatever the parity of the
    size. *)
Theorem window_starts_half_size_before_center array centers size :
  wf_ndarray array → shape0 array ≠ 1 → shape1 array ≠ 1 →
  0 ≤ size → Forall finite_center centers →
  ∃ batch, extract_many array centers size = Ok batch ∧
    ∀ k xq yq, centers !! k = Some (Fin xq, Fin yq) →
      ∃ cutout, batch !! k = Some cutout ∧
        ∀ i j, 0 ≤ i < size → 0 ≤ j < size →
          lookup2 cutout (i, j) =
          if in_bounds array (round_half_even yq - size `div` 2 + i,
                              round_half_even xq - size `div` 2 + j)
          then SFloat ∘ as_float64 <$>
               lookup2 array (round_half_even yq - size `div` 2 + i,
                              round_half_even xq - size `div` 2 + j)
          else Some (SFloat NaN).
Proof.
  intros Hwf Hs0 Hs1 Hsize Hfin.
  destruct (batch_lookup array centers size Hwf Hs0 Hs1 Hsize Hfin)
    as (batch & Hbatch & Hall).
  exists batch. split; [done|]. intros k xq yq Hk.
  destruct (Hall k xq yq Hk) as (cutout & Hcut & _ & _ & _ & Hlk). by exists cutout.
Qed.

Lemma window_starts_half_size_before_center_witness :
  ∃ batch, extract_many raster_int [(Fin 1, Fin 1)] 2 = Ok batch ∧
    ∀ k xq yq, [(Fin 1, Fin 1)] !! k = Some (Fin xq, Fin yq) →
      ∃ cutout, batch !! k = Some cutout ∧
        ∀ i j, 0 ≤ i < 2 → 0 ≤ j < 2 →
          lookup2 cutout (i, j) =
          if in_bounds raster_int (round_half_even yq - 2 `div` 2 + i,
                                   round_half_even xq - 2 `div` 2 + j)
          then SFloat ∘ as_float64 <$>
               lookup2 raster_int (round_half_even yq - 2 `div` 2 + i,
                                   round_half_even xq - 2 `div` 2 + j)
          else Some (SFloat NaN).
Proof.
  apply (window_starts_half_size_before_center raster_int [(Fin 1, Fin 1)] 2).
  - exact raster_int_wf.
  - vm_compute. discriminate.
  - vm_compute. discriminate.
  - lia.
  - repeat constructor.
Defined.

(** X2: for every size of at least 1, a raster none of whose two dimensions
    is 1 and a finite center whose rounded pixel lies on the raster, the
    cutout holds the float64 cast of the sample of that pixel at position
    ([size // 2], [size // 2]), also when parts of the window are off the
    raster. *)
Theorem center_pixel_at_half_size array centers size k xq yq :
  wf_ndarray array → shape0 array ≠ 1 → shape1 array ≠ 1 →
  1 ≤ size → Forall finite_center centers →
  centers !! k = Some (Fin xq, Fin yq) →
  in_bounds array (round_half_even yq, round_half_even xq) = true →
  ∃ batch cutout v,
    extract_many array centers size = Ok batch ∧ batch !! k = Some cutout ∧
    lookup2 array (round_half_even yq, round_half_even xq) = Some v ∧
    lookup2 cutout (size `div` 2, size `div` 2) = Some (SFloat (as_float64 v)).
Proof.
  intros Hwf Hs0 Hs1 Hsize Hfin Hk Hb.
  destruct (batch_lookup array centers size Hwf Hs0 Hs1 ltac:(lia) Hfin)
    as (batch & Hbatch & Hall).
  destruct (Hall k xq yq Hk) as (cutout & Hcut & _ & _ & _ & Hlk).
  destruct (lookup2_in_bounds array _ Hwf Hb) as [v Hv].
  exists batch, cutout, v. split_and!; [done..|].
  destruct (half_size_cases size ltac:(lia)) as [Hh Hcases].
  rewrite Hlk by lia.
  replace (round_half_even yq - size `div` 2 + size `div` 2)
    with (round_half_even yq) by lia.
  replace (round_half_even xq - size `div` 2 + size `div` 2)
    with (round_half_even xq) by lia.
  by rewrite Hb, Hv.
Qed.

Lemma center_pixel_at_half_size_witness :
  ∃ batch cutout v,
    extract_many raster_int [(Fin 0, Fin 0)] 3 = Ok batch ∧ batch !! 0%nat = Some cutout ∧
    lookup2 raster_int (round_half_even 0, round_half_even 0) = Some v ∧
    lookup2 cutout (3 `div` 2, 3 `div` 2) = Some (SFloat (as_float64 v)).
Proof.
  apply (center_pixel_at_half_size raster_int [(Fin 0, Fin 0)] 3 0%nat 0 0).
  - exact raster_int_wf.
  - vm_compute. discriminate.
  - vm_compute. discriminate.
  - lia.
  - repeat constructor.
  - reflexivity.
  - reflexivity.
Defined.

(** X3: when the window of a finite center lies wholly on a raster none of
    whose two dimensions is 1, the cutout is the block of the raster under
    the window, cast to float64: every element comes from a raster sample
    and no element is filled in. *)
Theorem window_inside_raster_is_exact_block array centers size k xq yq :
  wf_ndarray array → shape0 array ≠ 1 → shape1 array ≠ 1 →
  0 ≤ size → Forall finite_center centers →
  centers !! k = Some (Fin xq, Fin yq) →
  0 ≤ round_half_even yq - size `div` 2 →
  round_half_even yq - size `div` 2 + size ≤ shape0 array →
  0 ≤ round_half_even xq - size `div` 2 →
  round_half_even xq - size `div` 2 + size ≤ shape1 array →
  ∃ batch cutout,
    extract_many array centers size = Ok batch ∧ batch !! k = Some cutout ∧
    ∀ i j, 0 ≤ i < size → 0 ≤ j < size →
      ∃ v, lookup2 array (round_half_even yq - size `div` 2 + i,
                          round_half_even xq - size `div` 2 + j) = Some v ∧
           lookup2 cutout (i, j) = Some (SFloat (as_float64 v)).
Proof.
  intros Hwf Hs0 Hs1 Hsize Hfin Hk Hy0 Hy1 Hx0 Hx1.
  destruct (batch_lookup array centers size Hwf Hs0 Hs1 Hsize Hfin)
    as (batch & Hbatch & Hall).
  destruct (Hall k xq yq Hk) as (cutout & Hcut & _ & _ & _ & Hlk).
  exists batch, cutout. split_and!; [done..|]. intros i j Hi Hj.
  assert (Hb : in_bounds array (round_half_even yq - size `div` 2 + i,
                                round_half_even xq - size `div` 2 + j) = true)
    by (apply in_bounds_spec; cbn [fst snd]; lia).
  destruct (lookup2_in_bounds array _ Hwf Hb) as [v Hv].
  exists v. split; [done|]. by rewrite (Hlk i j Hi Hj), Hb, Hv.
Qed.

Lemma window_inside_raster_is_exact_block_witness :
  ∃ batch cutout,
    extract_many raster_int [(Fin 1, Fin 1)] 2 = Ok batch ∧ batch !! 0%nat = Some cutout ∧
    ∀ i j, 0 ≤ i < 2 → 0 ≤ j < 2 →
      ∃ v, lookup2 raster_int (round_half_even 1 - 2 `div` 2 + i,
                               round_half_even 1 - 2 `div` 2 + j) = Some v ∧
           lookup2 cutout (i, j) = Some (SFloat (as_float64 v)).
Proof.
  apply (window_inside_raster_is_exact_block raster_int [(Fin 1, Fin 1)] 2 0%nat 1 1).
  - exact raster_int_wf.
  - vm_compute. discriminate.
  - vm_compute. discriminate.
  - lia.
  - repeat constructor.
  - reflexivity.
  - vm_compute. discriminate.
  - vm_compute. discriminate.
  - vm_compute. discriminate.
  - vm_compute. discriminate.
Defined.

(** ** Batches and their parts *)

Lemma cutout_loop_acc array size half pix acc :
  cutout_loop array size half pix acc =
  cs ← cutout_loop array size half pix []; Ok (acc ++ cs).
Proof.
  revert acc. induction pix as [|c rest IH]; intros acc.
  - cbn. by rewrite app_nil_r.
  - rewrite !cutout_loop_cons.
    destruct (iteration array size half c) as [cut|e]; [|done].
    cbn [mbind result_bind]. rewrite (IH (acc ++ [cut])), (IH ([] ++ [cut])).
    destruct (cutout_loop array size half rest []) as [cs|e]; [|done].
    cbn [mbind result_bind]. by rewrite <- app_assoc.
Qed.

Lemma cutout_loop_app array size half pix1 pix2 acc :
  cutout_loop array size half (pix1 ++ pix2) acc =
  acc' ← cutout_loop array size half pix1 acc; cutout_loop array size half pix2 acc'.
Proof.
  revert acc. induction pix1 as [|c rest IH]; intros acc; [done|].
  rewrite <- app_comm_cons, !cutout_loop_cons.
  destruct (iteration array size half c) as [cut|e]; [|done].
  cbn [mbind result_bind]. apply IH.
Qed.

(** X4: the call on two lists of centers put one after the other returns
    the batch of the first followed by the batch of the second; it raises
    what the call on the first list raises, or else what the call on the
    second list raises. *)
Theorem extract_many_app array centers1 centers2 size :
  extract_many array (centers1 ++ centers2) size =
  batch1 ← extract_many array centers1 size;
  batch2 ← extract_many array centers2 size;
  Ok (batch1 ++ batch2).
Proof.
  rewrite !extract_many_unfold, cutout_loop_app.
  destruct (cutout_loop (np_squeeze array) size (size `div` 2) centers1 []) as [b1|e];
    [|done].
  cbn [mbind result_bind]. apply cutout_loop_acc.
Qed.

(** X5: on a raster none of whose two dimensions is 1 and for a size that
    is not negative, the call stops at the first center with a non-finite
    coordinate and raises the exception of that coordinate, x before y:
    [ValueError] for NaN and [OverflowError] for an infinity. The centers
    after it play no part. When that center is the first of the list, this
    holds for every image and every size: the rounding of line 44 comes
    before the allocation and before the first use of the image. *)
Theorem first_non_finite_center_decides_error array pre c rest size :
  wf_ndarray array → shape0 array ≠ 1 → shape1 array ≠ 1 → 0 ≤ size →
  Forall finite_center pre → ¬ finite_center c →
  let e := match c.1 with
           | NaN => ValueError
           | PosInf | NegInf => OverflowError
           | Fin _ => match c.2 with NaN => ValueError | _ => OverflowError end
           end in
  extract_many array (pre ++ c :: rest) size = Raise e ∧
  ∀ image size', extract_many image (c :: rest) size' = Raise e.
Proof.
  intros Hwf Hs0 Hs1 Hsize Hpre Hc. cbv zeta.
  assert (Hfirst : ∀ image size',
            extract_many image (c :: rest) size' =
            Raise (match c.1 with
                   | NaN => ValueError
                   | PosInf | NegInf => OverflowError
                   | Fin _ => match c.2 with NaN => ValueError | _ => OverflowError end
                   end)).
  { intros image size'. rewrite extract_many_unfold, cutout_loop_cons.
    destruct c as [[xq| | |] [yq| | |]]; try done.
    destruct Hc. by split. }
  split; [|exact Hfirst].
  destruct (extract_many_finite array pre size Hwf Hs0 Hs1 Hsize Hpre)
    as (batch & Hbatch & _).
  rewrite extract_many_app, Hbatch. cbn [mbind result_bind]. by rewrite Hfirst.
Qed.

Lemma first_non_finite_center_decides_error_witness :
  let e := match (PosInf, NaN).1 with
           | NaN => ValueError
           | PosInf | NegInf => OverflowError
           | Fin _ => match (PosInf, NaN).2 with NaN => ValueError | _ => OverflowError end
           end in
  extract_many raster5 ([(Fin 0, Fin 0)] ++ (PosInf, NaN) :: [(NaN, Fin 1)]) 3 = Raise e ∧
  ∀ image size', extract_many image ((PosInf, NaN) :: [(NaN, Fin 1)]) size' = Raise e.
Proof.
  apply (first_non_finite_center_decides_error raster5 [(Fin 0, Fin 0)] (PosInf, NaN)
           [(NaN, Fin 1)] 3).
  - exact raster5_wf.
  - vm_compute. discriminate.
  - vm_compute. discriminate.
  - lia.
  - repeat constructor.
  - unfold finite_center. cbn. intros [? ?]. discriminate.
Defined.

(** ** More on rounding *)

(** X6: the call on finite centers each of which lies closer than 1/2, on
    both axes, to a pixel with integer coordinates does what the call on
    those pixels as centers does: it returns the same batch or raises the
    same exception, on every image and for every size. The call on one
    center with integer coordinates (x, y) returns what the loop body
    returns at exactly (x, y). *)
Theorem centers_near_pixels_give_pixel_cutouts array size
    (centers : list (Q * Q)) (pixels : list (Z * Z)) :
  Forall2 (λ c p, (Qabs (c.1 - inject_Z p.1) < 1 # 2)%Q ∧
                  (Qabs (c.2 - inject_Z p.2) < 1 # 2)%Q) centers pixels →
  extract_many array ((λ c, (Fin c.1, Fin c.2)) <$> centers) size =
  extract_many array ((λ p, (Fin (inject_Z p.1), Fin (inject_Z p.2))) <$> pixels) size ∧
  ∀ x y, extract_many array [(Fin (inject_Z x), Fin (inject_Z y))] size =
         cut ← make_cutout_squeezed (np_squeeze array) size (size `div` 2) x y;
         Ok [cut].
Proof.
  intros Hnear. split.
  - rewrite !extract_many_unfold. apply cutout_loop_ext, Forall2_fmap.
    eapply Forall2_impl; [exact Hnear|].
    intros [cx cy] [px py] [Hx Hy]. cbn [fst snd] in *.
    rewrite !iteration_Fin, !round_half_even_inject_Z.
    by rewrite (round_half_even_unique cx px Hx), (round_half_even_unique cy py Hy).
  - intros x y. rewrite extract_many_unfold, cutout_loop_cons, iteration_Fin.
    rewrite !round_half_even_inject_Z.
    by destruct (make_cutout_squeezed _ _ _ _ _).
Qed.

Lemma centers_near_pixels_give_pixel_cutouts_witness :
  extract_many raster5
    ((λ c, (Fin c.1, Fin c.2)) <$> [(17 # 10, 12 # 5); (-2 # 5, 449 # 100)]%Q) 3 =
  extract_many raster5
    ((λ p, (Fin (inject_Z p.1), Fin (inject_Z p.2))) <$> [(2, 2); (0, 4)]) 3 ∧
  ∀ x y, extract_many raster5 [(Fin (inject_Z x), Fin (inject_Z y))] 3 =
         cut ← make_cutout_squeezed (np_squeeze raster5) 3 (3 `div` 2) x y;
         Ok [cut].
Proof.
  apply (centers_near_pixels_give_pixel_cutouts raster5 3
           [(17 # 10, 12 # 5); (-2 # 5, 449 # 100)]%Q [(2, 2); (0, 4)]).
  repeat constructor; vm_compute; reflexivity.
Defined.

(** ** Images with an axis of length 1 *)

(** X16: [np.squeeze] (line 25) drops every axis of length 1, so an image
    of one row or of one column is left with fewer than two axes. For a
    size that is not negative the call on such an image raises
    [IndexError] at the first center when that center is finite; for a
    negative size the allocation of line 47 comes first and the call raises
    [ValueError]; and without any center the call returns the empty batch,
    on every image and for every size. *)
Theorem unit_axis_image_raises_index_error array c rest size :
  shape0 array = 1 ∨ shape1 array = 1 → finite_center c →
  (0 ≤ size → extract_many array (c :: rest) size = Raise IndexError) ∧
  (size < 0 → extract_many array (c :: rest) size = Raise ValueError) ∧
  extract_many array [] size = Ok [].
Proof.
  intros Hunit Hc. split_and!.
  - intros Hsize. by apply extract_many_unit_axis.
  - intros Hsize. by apply extract_many_negative_size.
  - done.
Qed.

Lemma unit_axis_image_raises_index_error_witness :
  (0 ≤ 3 → extract_many raster_column ((Fin 0, Fin 1) :: [(NaN, NaN)]) 3 = Raise IndexError) ∧
  (3 < 0 → extract_many raster_column ((Fin 0, Fin 1) :: [(NaN, NaN)]) 3 = Raise ValueError) ∧
  extract_many raster_column [] 3 = Ok [].
Proof.
  apply (unit_axis_image_raises_index_error raster_column (Fin 0, Fin 1) [(NaN, NaN)] 3).
  - right. reflexivity.
  - repeat constructor.
Defined.

(** * Properties of [msclip] *)

Import ClipMs.

(** ** The path of the measurement set *)

Lemma string_app_cons a (s t : string) : String a s +:+ t = String a (s +:+ t).
Proof. reflexivity. Qed.

Lemma string_app_nil_l (t : string) : "" +:+ t = t.
Proof. reflexivity. Qed.

Lemma string_app_nil_r (s : string) : s +:+ "" = s.
Proof. induction s as [|a s IH]; [done|]. by rewrite string_app_cons, IH. Qed.

Lemma string_app_assoc (s1 s2 s3 : string) : (s1 +:+ s2) +:+ s3 = s1 +:+ (s2 +:+ s3).
Proof. induction s1 as [|a s1 IH]; [done|]. by rewrite !string_app_cons, IH. Qed.

Lemma rstrip_copies c k : rstrip c (copies c k) = "".
Proof.
  induction k as [|k IH]; [done|]. cbn [copies rstrip]. rewrite IH.
  by rewrite Ascii.eqb_refl.
Qed.

Lemma rstrip_app_copies c s k : rstrip c (s +:+ copies c k) = rstrip c s.
Proof.
  induction s as [|a s IH]; [apply rstrip_copies|].
  rewrite string_app_cons. cbn [rstrip]. by rewrite IH.
Qed.

Lemma rstrip_decompose c s : ∃ k, s = rstrip c s +:+ copies c k.
Proof.
  induction s as [|a s [k IH]]; [by exists 0%nat|].
  cbn [rstrip]. destruct (rstrip c s) as [|b r] eqn:Hr.
  - rewrite string_app_nil_l in IH. destruct (Ascii.eqb_spec a c) as [->|Hne].
    + exists (S k). rewrite string_app_nil_l. cbn [copies]. by f_equal.
    + exists k. rewrite string_app_cons, string_app_nil_l. by f_equal.
  - exists k. rewrite string_app_cons. by f_equal.
Qed.

Lemma rstrip_no_trailing c s s' : rstrip c s ≠ s' +:+ String c "".
Proof.
  revert s'. induction s as [|a s IH]; intros s'.
  - by destruct s'.
  - cbn [rstrip]. destruct (rstrip c s) as [|b r] eqn:Hr.
    + destruct (Ascii.eqb_spec a c) as [->|Hne].
      * by destruct s'.
      * destruct s' as [|a' s'']; [rewrite string_app_nil_l; congruence|].
        rewrite string_app_cons. by destruct s''.
    + destruct s' as [|a' s''].
      * rewrite string_app_nil_l. congruence.
      * rewrite string_app_cons. intros [= -> Heq]. by apply (IH s'').
Qed.

Lemma rstrip_idemp c s : rstrip c (rstrip c s) = rstrip c s.
Proof.
  destruct (rstrip_decompose c s) as [k Hk].
  rewrite Hk at 2. by rewrite rstrip_app_copies.
Qed.

(** X7: the path used for the tables is the given path without its
    trailing slashes, followed by one slash. Paths that differ only in the
    number of trailing slashes therefore give the same path and the same
    table paths, and a path that is already normalised is left as it is. *)
Theorem normalize_path_one_trailing_slash ms_path :
  (∃ stem k, ms_path = stem +:+ copies "/" k ∧ (∀ s', stem ≠ s' +:+ "/") ∧
             normalize_path ms_path = stem +:+ "/") ∧
  (∀ k, normalize_path (ms_path +:+ copies "/" k) = normalize_path ms_path) ∧
  normalize_path (normalize_path ms_path) = normalize_path ms_path ∧
  (∀ k tabname, tabpath (ms_path +:+ copies "/" k) tabname = tabpath ms_path tabname).
Proof.
  assert (Hk : ∀ s k, normalize_path (s +:+ copies "/" k) = normalize_path s).
  { intros s k. unfold normalize_path. by rewrite rstrip_app_copies. }
  split_and!.
  - destruct (rstrip_decompose "/" ms_path) as [k Hdec].
    exists (rstrip "/" ms_path), k. split_and!; [done| |done].
    intros s'. apply rstrip_no_trailing.
  - apply Hk.
  - change (normalize_path ms_path) with (rstrip "/" ms_path +:+ copies "/" 1) at 1.
    rewrite Hk. unfold normalize_path. by rewrite rstrip_idemp.
  - intros k tabname. unfold tabpath. by rewrite Hk.
Qed.

(** ** Order of floats *)

Lemma fle_nan_l x : fle NaN x = false.
Proof. by destruct x. Qed.

Lemma fle_nan_r x : fle x NaN = false.
Proof. by destruct x. Qed.

Lemma fle_not_nan x y : fle x y = true → x ≠ NaN ∧ y ≠ NaN.
Proof. destruct x, y; done. Qed.

Lemma fle_refl x : x ≠ NaN → fle x x = true.
Proof. destruct x; try done. intros _. cbn. apply Qle_bool_iff, Qle_refl. Qed.

Lemma fle_trans x y z : fle x y = true → fle y z = true → fle x z = true.
Proof.
  destruct x as [p| | |], y as [q| | |], z as [r| | |]; cbn; try done.
  rewrite !Qle_bool_iff. apply Qle_trans.
Qed.

Lemma fle_total x y : x ≠ NaN → y ≠ NaN → fle x y = true ∨ fle y x = true.
Proof.
  destruct x as [p| | |], y as [q| | |]; cbn; try done; try (by left); try (by right).
  intros _ _. rewrite !Qle_bool_iff.
  destruct (Qlt_le_dec p q) as [Hlt|Hle]; [left; by apply Qlt_le_weak|by right].
Qed.

Lemma minimum_cases x y :
  x ≠ NaN → y ≠ NaN →
  (minimum x y = x ∨ minimum x y = y) ∧
  fle (minimum x y) x = true ∧ fle (minimum x y) y = true.
Proof.
  intros Hx Hy. destruct (fle_total x y Hx Hy) as [Hle|Hle].
  - assert (minimum x y = x) as ->.
    { unfold minimum. rewrite Hle. by destruct x, y. }
    split_and!; [by left|by apply fle_refl|done].
  - destruct (fle x y) eqn:Hxy.
    + assert (minimum x y = x) as ->.
      { unfold minimum. rewrite Hxy. by destruct x, y. }
      split_and!; [by left|by apply fle_refl|done].
    + assert (minimum x y = y) as ->.
      { unfold minimum. rewrite Hxy. by destruct x, y. }
      split_and!; [by right|done|by apply fle_refl].
Qed.

Lemma maximum_cases x y :
  x ≠ NaN → y ≠ NaN →
  (maximum x y = x ∨ maximum x y = y) ∧
  fle x (maximum x y) = true ∧ fle y (maximum x y) = true.
Proof.
  intros Hx Hy. destruct (fle x y) eqn:Hxy.
  - assert (maximum x y = y) as ->.
    { unfold maximum. rewrite Hxy. by destruct x, y. }
    split_and!; [by right|done|by apply fle_refl].
  - assert (maximum x y = x) as ->.
    { unfold maximum. rewrite Hxy. by destruct x, y. }
    destruct (fle_total x y Hx Hy) as [Hle|Hle]; [congruence|].
    split_and!; [by left|by apply fle_refl|done].
Qed.

Lemma foldl_minimum_nan_acc rest : foldl minimum NaN rest = NaN.
Proof. induction rest as [|w rest IH]; [done|]. cbn. exact IH. Qed.

Lemma foldl_maximum_nan_acc rest : foldl maximum NaN rest = NaN.
Proof. induction rest as [|w rest IH]; [done|]. cbn. exact IH. Qed.

Lemma foldl_minimum_nan v rest : NaN ∈ v :: rest → foldl minimum v rest = NaN.
Proof.
  revert v. induction rest as [|w rest IH]; intros v Hin.
  - apply list_elem_of_singleton in Hin as <-. done.
  - cbn [foldl]. apply elem_of_cons in Hin as [<-|Hin].
    + cbn. apply foldl_minimum_nan_acc.
    + apply elem_of_cons in Hin as [<-|Hin].
      * assert (minimum v NaN = NaN) as -> by by destruct v.
        apply foldl_minimum_nan_acc.
      * apply IH. by apply list_elem_of_further.
Qed.

Lemma foldl_maximum_nan v rest : NaN ∈ v :: rest → foldl maximum v rest = NaN.
Proof.
  revert v. induction rest as [|w rest IH]; intros v Hin.
  - apply list_elem_of_singleton in Hin as <-. done.
  - cbn [foldl]. apply elem_of_cons in Hin as [<-|Hin].
    + cbn. apply foldl_maximum_nan_acc.
    + apply elem_of_cons in Hin as [<-|Hin].
      * assert (maximum v NaN = NaN) as -> by by destruct v.
        apply foldl_maximum_nan_acc.
      * apply IH. by apply list_elem_of_further.
Qed.

Lemma foldl_minimum_spec v rest :
  Forall (λ x, x ≠ NaN) (v :: rest) →
  foldl minimum v rest ∈ v :: rest ∧
  ∀ x, x ∈ v :: rest → fle (foldl minimum v rest) x = true.
Proof.
  revert v. induction rest as [|w rest IH]; intros v Hall.
  - apply Forall_cons in Hall as [Hv _]. cbn. split; [apply list_elem_of_here|].
    intros x ->%list_elem_of_singleton. by apply fle_refl.
  - apply Forall_cons in Hall as [Hv Hall]. apply Forall_cons in Hall as [Hw Hall].
    destruct (minimum_cases v w Hv Hw) as (Hcase & Hlv & Hlw).
    cbn [foldl]. destruct (IH (minimum v w)) as [Hin Hle].
    { apply Forall_cons. split; [|done]. by destruct Hcase as [-> | ->]. }
    split.
    + apply elem_of_cons in Hin as [->|Hin].
      * destruct Hcase as [-> | ->];
          [apply list_elem_of_here|apply list_elem_of_further, list_elem_of_here].
      * by do 2 apply list_elem_of_further.
    + intros x Hx. pose proof (Hle _ (list_elem_of_here _ _)) as Hm.
      apply elem_of_cons in Hx as [->|Hx]; [by eapply fle_trans|].
      apply elem_of_cons in Hx as [->|Hx]; [by eapply fle_trans|].
      apply Hle. by apply list_elem_of_further.
Qed.

Lemma foldl_maximum_spec v rest :
  Forall (λ x, x ≠ NaN) (v :: rest) →
  foldl maximum v rest ∈ v :: rest ∧
  ∀ x, x ∈ v :: rest → fle x (foldl maximum v rest) = true.
Proof.
  revert v. induction rest as [|w rest IH]; intros v Hall.
  - apply Forall_cons in Hall as [Hv _]. cbn. split; [apply list_elem_of_here|].
    intros x ->%list_elem_of_singleton. by apply fle_refl.
  - apply Forall_cons in Hall as [Hv Hall]. apply Forall_cons in Hall as [Hw Hall].
    destruct (maximum_cases v w Hv Hw) as (Hcase & Hlv & Hlw).
    cbn [foldl]. destruct (IH (maximum v w)) as [Hin Hle].
    { apply Forall_cons. split; [|done]. by destruct Hcase as [-> | ->]. }
    split.
    + apply elem_of_cons in Hin as [->|Hin].
      * destruct Hcase as [-> | ->];
          [apply list_elem_of_here|apply list_elem_of_further, list_elem_of_here].
      * by do 2 apply list_elem_of_further.
    + intros x Hx. pose proof (Hle _ (list_elem_of_here _ _)) as Hm.
      apply elem_of_cons in Hx as [->|Hx]; [by eapply fle_trans|].
      apply elem_of_cons in Hx as [->|Hx]; [by eapply fle_trans|].
      apply Hle. by apply list_elem_of_further.
Qed.

(** ** Unique values, positions of a mask, indexing *)

Lemma elem_of_insert_unique x v l : x ∈ insert_unique v l ↔ x = v ∨ x ∈ l.
Proof.
  induction l as [|w l IH]; cbn [insert_unique].
  - rewrite list_elem_of_singleton, elem_of_nil. tauto.
  - destruct (Z.ltb_spec v w); [by rewrite elem_of_cons|].
    destruct (Z.eqb_spec v w) as [->|Hne].
    + rewrite elem_of_cons. tauto.
    + rewrite !elem_of_cons, IH. tauto.
Qed.

Lemma insert_unique_sorted v l :
  StronglySorted Z.lt l → StronglySorted Z.lt (insert_unique v l).
Proof.
  induction 1 as [|w l Hl IH Hw]; cbn [insert_unique].
  - repeat constructor.
  - destruct (Z.ltb_spec v w) as [Hlt|Hge].
    + constructor; [by constructor|]. constructor; [done|].
      eapply Forall_impl; [exact Hw|]. intros; cbn in *; lia.
    + destruct (Z.eqb_spec v w) as [->|Hne]; [by constructor|].
      constructor; [done|]. apply Forall_forall. intros x Hx.
      apply elem_of_insert_unique in Hx as [->|Hx]; [lia|].
      by apply (proj1 (Forall_forall _ _) Hw).
Qed.

Lemma elem_of_np_unique x a : x ∈ np_unique a ↔ x ∈ a.
Proof.
  induction a as [|v a IH]; [done|].
  cbn [np_unique foldr]. fold (np_unique a).
  by rewrite elem_of_insert_unique, elem_of_cons, IH.
Qed.

Lemma np_unique_sorted a : StronglySorted Z.lt (np_unique a).
Proof.
  induction a as [|v a IH]; [constructor|].
  cbn [np_unique foldr]. by apply insert_unique_sorted.
Qed.

Lemma elem_of_where_from i j mask :
  i ∈ where_from j mask ↔ ∃ i', i = (j + i')%nat ∧ mask !! i' = Some true.
Proof.
  revert j. induction mask as [|b mask IH]; intros j; cbn [where_from].
  - rewrite elem_of_nil. split; [done|]. by intros (i' & _ & ?).
  - assert (Htail : (∃ i', i = (S j + i')%nat ∧ mask !! i' = Some true) ↔
                    (∃ i', i = (j + S i')%nat ∧ (b :: mask) !! S i' = Some true)).
    { split; intros (i' & -> & ?); exists i'; split; (lia || done). }
    destruct b.
    + rewrite elem_of_cons, IH, Htail. split.
      * intros [->|(i' & -> & ?)]; [exists 0%nat|exists (S i')]; split; (lia || done).
      * intros ([|i'] & -> & ?); [left; lia|right; by exists i'].
    + rewrite IH, Htail. split.
      * intros (i' & -> & ?). by exists (S i').
      * intros ([|i'] & -> & ?); [done|by exists i'].
Qed.

Lemma where_from_sorted j mask : StronglySorted lt (where_from j mask).
Proof.
  revert j. induction mask as [|b mask IH]; intros j; cbn [where_from]; [constructor|].
  destruct b; [|apply IH]. constructor; [apply IH|].
  apply Forall_forall. intros i (i' & -> & _)%elem_of_where_from. lia.
Qed.

Lemma elem_of_np_where i mask : i ∈ np_where mask ↔ mask !! i = Some true.
Proof.
  unfold np_where. rewrite elem_of_where_from. split.
  - by intros (i' & -> & ?).
  - intros ?. by exists i.
Qed.

Lemma mapM_Done {A B} (f : A → outcome B) l k :
  mapM f l = Done k ↔ Forall2 (λ x y, f x = Done y) l k.
Proof.
  revert k. induction l as [|x l IH]; intros k; cbn [mapM].
  - split; [intros [= <-]; constructor|by intros ->%Forall2_nil_inv_l].
  - split.
    + destruct (f x) as [y|] eqn:Hy; [|done]. cbn [mbind outcome_bind].
      destruct (mapM f l) as [k'|] eqn:Hk'; [|done]. cbn [mbind outcome_bind].
      intros [= <-]. constructor; [done|]. by apply IH.
    + intros (y & k' & Hy & Hk' & ->)%Forall2_cons_inv_l.
      rewrite Hy. cbn [mbind outcome_bind]. apply IH in Hk'. by rewrite Hk'.
Qed.

Lemma mapM_total {A B} (f : A → outcome B) l :
  Forall (λ x, ∃ y, f x = Done y) l → ∃ k, mapM f l = Done k.
Proof.
  induction 1 as [|x l [y Hy] _ [k IH]].
  - by exists [].
  - exists (y :: k). apply mapM_Done. constructor; [done|]. by apply mapM_Done.
Qed.

Lemma take_indices_Done a index ts :
  take_indices a index = Done ts ↔ Forall2 (λ i t, a !! i = Some t) index ts.
Proof.
  unfold take_indices. rewrite mapM_Done. split.
  - intros H. eapply Forall2_impl; [exact H|]. intros i t. cbn.
    destruct (a !! i); [by intros [= ->]|done].
  - intros H. eapply Forall2_impl; [exact H|]. intros i t. cbn. by intros ->.
Qed.

Lemma take_indices_total a index :
  Forall (λ i, i < length a)%nat index → ∃ ts, take_indices a index = Done ts.
Proof.
  intros Hall. apply mapM_total. eapply Forall_impl; [exact Hall|].
  intros i Hi. cbn in *. destruct (lookup_lt_is_Some_2 a i Hi) as [v ->]. by exists v.
Qed.

(** ** The time bounds of the chunks *)

Lemma np_min_spec ts :
  ts ≠ [] →
  ∃ mn, np_min ts = Done mn ∧ (NaN ∈ ts → mn = NaN) ∧
        (NaN ∉ ts → mn ∈ ts ∧ ∀ t, t ∈ ts → fle mn t = true).
Proof.
  destruct ts as [|v rest]; [done|]. intros _. eexists. split; [done|]. split.
  - apply foldl_minimum_nan.
  - intros Hnan. apply foldl_minimum_spec. apply Forall_forall. by intros x Hx ->.
Qed.

Lemma np_max_spec ts :
  ts ≠ [] →
  ∃ mx, np_max ts = Done mx ∧ (NaN ∈ ts → mx = NaN) ∧
        (NaN ∉ ts → mx ∈ ts ∧ ∀ t, t ∈ ts → fle t mx = true).
Proof.
  destruct ts as [|v rest]; [done|]. intros _. eexists. split; [done|]. split.
  - apply foldl_maximum_nan.
  - intros Hnan. apply foldl_maximum_spec. apply Forall_forall. by intros x Hx ->.
Qed.

Lemma mask_lookup (chunk_ids : list Z) val (i : nat) :
  ((λ c, c =? val) <$> chunk_ids) !! i = Some true ↔ chunk_ids !! i = Some val.
Proof.
  rewrite list_lookup_fmap. destruct (chunk_ids !! i) as [c|]; cbn; [|done].
  destruct (Z.eqb_spec c val); split; intros [=]; congruence.
Qed.

Lemma chunk_times_spec chunk_ids mstime val :
  length chunk_ids = length mstime → val ∈ chunk_ids →
  ∃ ts, take_indices mstime (np_where ((λ c, c =? val) <$> chunk_ids)) = Done ts ∧
        ts ≠ [] ∧ ∀ t, t ∈ ts ↔ chunk_time chunk_ids mstime val t.
Proof.
  intros Hlen Hval. set (index := np_where _).
  assert (Hindex : ∀ i, i ∈ index ↔ chunk_ids !! i = Some val).
  { intros i. unfold index. by rewrite elem_of_np_where, mask_lookup. }
  destruct (take_indices_total mstime index) as [ts Hts].
  { apply Forall_forall. intros i Hi%Hindex%lookup_lt_Some. lia. }
  exists ts. split; [done|]. apply take_indices_Done in Hts. split.
  - apply list_elem_of_lookup in Hval as [i Hi]. apply Hindex in Hi.
    apply list_elem_of_lookup in Hi as [n Hn].
    destruct (Forall2_lookup_l _ _ _ _ _ Hts Hn) as (t & Ht & _).
    intros ->. done.
  - intros t. unfold chunk_time. split.
    + intros [n Hn]%list_elem_of_lookup.
      destruct (Forall2_lookup_r _ _ _ _ _ Hts Hn) as (i & Hi & Ht).
      exists i. split; [|done]. apply Hindex, list_elem_of_lookup. by exists n.
    + intros (i & Hi%Hindex & Ht). apply list_elem_of_lookup in Hi as [n Hn].
      destruct (Forall2_lookup_l _ _ _ _ _ Hts Hn) as (t' & Ht' & Heq).
      apply list_elem_of_lookup. exists n. congruence.
Qed.

Lemma chunk_bounds_spec chunk_ids mstime :
  length chunk_ids = length mstime →
  ∃ min_times max_times,
    chunk_bounds chunk_ids mstime = Done (min_times, max_times) ∧
    Forall2 (lower_bound_of chunk_ids mstime) (np_unique chunk_ids) min_times ∧
    Forall2 (upper_bound_of chunk_ids mstime) (np_unique chunk_ids) max_times.
Proof.
  intros Hlen. unfold chunk_bounds.
  set (indices := _ <$> np_unique chunk_ids).
  destruct (mapM_total (take_indices mstime) indices) as [chunktimes Hct].
  { unfold indices. apply Forall_fmap, Forall_forall. intros val Hval.
    apply (proj1 (elem_of_np_unique _ _)) in Hval.
    destruct (chunk_times_spec chunk_ids mstime val Hlen Hval) as (ts & Hts & _).
    by exists ts. }
  rewrite Hct. cbn [mbind outcome_bind].
  apply mapM_Done in Hct. unfold indices in Hct. apply Forall2_fmap_l in Hct.
  assert (Hchunks : Forall2 (λ val ts, ts ≠ [] ∧
                               ∀ t, t ∈ ts ↔ chunk_time chunk_ids mstime val t)
                            (np_unique chunk_ids) chunktimes).
  { apply Forall2_same_length_lookup. split; [by eapply Forall2_length|].
    intros k val ts Hval Hts.
    pose proof (Forall2_lookup_lr _ _ _ _ _ _ Hct Hval Hts) as Htake.
    unfold compose in Htake.
    assert (Hin : val ∈ chunk_ids).
    { apply elem_of_np_unique, list_elem_of_lookup. by exists k. }
    destruct (chunk_times_spec chunk_ids mstime val Hlen Hin) as (ts' & Hts' & ? & ?).
    assert (ts' = ts) as -> by congruence. done. }
  destruct (mapM_total np_min chunktimes) as [min_times Hmin].
  { apply Forall_forall. intros ts [k Hk]%list_elem_of_lookup.
    destruct (Forall2_lookup_r _ _ _ _ _ Hchunks Hk) as (val & _ & Hne & _).
    destruct (np_min_spec ts Hne) as (mn & ? & _). by exists mn. }
  destruct (mapM_total np_max chunktimes) as [max_times Hmax].
  { apply Forall_forall. intros ts [k Hk]%list_elem_of_lookup.
    destruct (Forall2_lookup_r _ _ _ _ _ Hchunks Hk) as (val & _ & Hne & _).
    destruct (np_max_spec ts Hne) as (mx & ? & _). by exists mx. }
  rewrite Hmin. cbn [mbind outcome_bind]. rewrite Hmax. cbn [mbind outcome_bind].
  exists min_times, max_times. split; [done|].
  apply mapM_Done in Hmin, Hmax. split.
  - eapply Forall2_trans; [|exact Hchunks|exact Hmin].
    intros val ts mn [Hne Hts] Hmn. cbn in Hmn.
    destruct (np_min_spec ts Hne) as (mn' & Hmn' & Hnan & Hfin).
    assert (mn' = mn) as -> by congruence.
    split.
    + intros Hc. by apply Hnan, Hts.
    + intros Hc. destruct Hfin as [Hin Hle]; [by rewrite Hts|].
      split; [by apply Hts|]. intros t Ht. by apply Hle, Hts.
  - eapply Forall2_trans; [|exact Hchunks|exact Hmax].
    intros val ts mx [Hne Hts] Hmx. cbn in Hmx.
    destruct (np_max_spec ts Hne) as (mx' & Hmx' & Hnan & Hfin).
    assert (mx' = mx) as -> by congruence.
    split.
    + intros Hc. by apply Hnan, Hts.
    + intros Hc. destruct Hfin as [Hin Hle]; [by rewrite Hts|].
      split; [by apply Hts|]. intros t Ht. by apply Hle, Hts.
Qed.

(** ** The rows kept *)

Lemma kept_spec min_times max_times t :
  kept min_times max_times t = true ↔
  ∃ k mn mx, min_times !! k = Some mn ∧ max_times !! k = Some mx ∧
             fle mn t = true ∧ fle t mx = true.
Proof.
  unfold kept, any, condition_row. rewrite existsb_exists. split.
  - intros (b & Hin & Hb). unfold id in Hb. subst b.
    apply list_elem_of_In, list_elem_of_lookup in Hin as [k Hk].
    apply lookup_zip_with_Some in Hk as (b1 & b2 & Hand & H1 & H2).
    apply list_lookup_fmap_Some in H1 as (mn & -> & Hmn).
    apply list_lookup_fmap_Some in H2 as (mx & -> & Hmx).
    symmetry in Hand. apply andb_true_iff in Hand as [? ?].
    by exists k, mn, mx.
  - intros (k & mn & mx & Hmn & Hmx & Hle1 & Hle2). exists true. split; [|done].
    apply list_elem_of_In, list_elem_of_lookup. exists k.
    apply lookup_zip_with_Some. exists (fge t mn), (fle t mx). split_and!.
    + unfold fge. by rewrite Hle1, Hle2.
    + apply list_lookup_fmap_Some. by exists mn.
    + apply list_lookup_fmap_Some. by exists mx.
Qed.

Lemma elem_of_keeper_indices min_times max_times (cliptime : list pyfloat) (i : nat) :
  i ∈ keeper_indices min_times max_times cliptime ↔
  ∃ t, cliptime !! i = Some t ∧ kept min_times max_times t = true.
Proof.
  unfold keeper_indices. rewrite elem_of_np_where, list_lookup_fmap_Some.
  fold (kept min_times max_times). split.
  - intros (t & ? & ?). by exists t.
  - intros (t & ? & ?). by exists t.
Qed.

Lemma selectrows_where_from {A} (f : A → bool) (pre rows : list A) :
  selectrows (pre ++ rows) (where_from (length pre) (f <$> rows)) =
  filter (λ r, f r = true) rows.
Proof.
  revert pre. induction rows as [|r rows IH]; intros pre; [done|].
  rewrite fmap_cons, filter_cons. cbn [where_from].
  specialize (IH (pre ++ [r])).
  rewrite length_app, Nat.add_1_r, <- app_assoc in IH. cbn [app] in IH.
  destruct (f r) eqn:Hr.
  - rewrite decide_True by done. unfold selectrows in *. cbn [omap list_omap].
    rewrite list_lookup_middle by done. by rewrite IH.
  - rewrite decide_False by congruence. exact IH.
Qed.

Lemma selectrows_keepers {A} (time : A → pyfloat) min_times max_times (rows : list A) :
  selectrows rows (keeper_indices min_times max_times (time <$> rows)) =
  filter (λ r, kept min_times max_times (time r) = true) rows.
Proof.
  unfold keeper_indices, np_where. fold (kept min_times max_times).
  rewrite <- list_fmap_compose.
  apply (selectrows_where_from (kept min_times max_times ∘ time) [] rows).
Qed.

Lemma clip_rows_filter {A} (time : A → pyfloat) min_times max_times (rows : list A) :
  rows ≠ [] →
  clip_rows time min_times max_times rows =
  Done (filter (λ r, kept min_times max_times (time r) = true) rows).
Proof.
  intros Hne. unfold clip_rows. rewrite decide_False.
  - by rewrite selectrows_keepers.
  - rewrite length_fmap. by destruct rows.
Qed.

Lemma clip_table_filter {A} (time : A → pyfloat) chunk_ids mstime (rows : list A)
    min_times max_times :
  chunk_bounds chunk_ids mstime = Done (min_times, max_times) →
  rows ≠ [] →
  clip_table time chunk_ids mstime rows =
  Done (filter (λ r, kept min_times max_times (time r) = true) rows).
Proof.
  intros Hb Hne. unfold clip_table. rewrite Hb. cbn [mbind outcome_bind].
  by apply clip_rows_filter.
Qed.

(** A row is kept exactly when some chunk's bounds enclose its TIME; with
    the bounds read back on the measurement set. *)
Lemma kept_between_chunk_times chunk_ids mstime min_times max_times t :
  Forall2 (lower_bound_of chunk_ids mstime) (np_unique chunk_ids) min_times →
  Forall2 (upper_bound_of chunk_ids mstime) (np_unique chunk_ids) max_times →
  kept min_times max_times t = true →
  ∃ val t1 t2, chunk_time chunk_ids mstime val t1 ∧ chunk_time chunk_ids mstime val t2 ∧
               ¬ chunk_time chunk_ids mstime val NaN ∧
               fle t1 t = true ∧ fle t t2 = true.
Proof.
  intros Hlo Hhi (k & mn & mx & Hmn & Hmx & Hle1 & Hle2)%kept_spec.
  destruct (Forall2_lookup_r _ _ _ _ _ Hlo Hmn) as (val & Hval & Hlow).
  destruct (Forall2_lookup_r _ _ _ _ _ Hhi Hmx) as (val' & Hval' & Hupp).
  assert (val' = val) as -> by congruence.
  destruct Hlow as [Hnan Hfin], Hupp as [_ Hfin'].
  assert (Hno : ¬ chunk_time chunk_ids mstime val NaN).
  { intros Hc. rewrite (Hnan Hc) in Hle1. by rewrite fle_nan_l in Hle1. }
  destruct (Hfin Hno) as [Hin1 _], (Hfin' Hno) as [Hin2 _].
  by exists val, mn, mx.
Qed.

Lemma between_chunk_times_kept chunk_ids mstime min_times max_times val t1 t2 t :
  Forall2 (lower_bound_of chunk_ids mstime) (np_unique chunk_ids) min_times →
  Forall2 (upper_bound_of chunk_ids mstime) (np_unique chunk_ids) max_times →
  chunk_time chunk_ids mstime val t1 → chunk_time chunk_ids mstime val t2 →
  ¬ chunk_time chunk_ids mstime val NaN →
  fle t1 t = true → fle t t2 = true →
  kept min_times max_times t = true.
Proof.
  intros Hlo Hhi Ht1 Ht2 Hno Hle1 Hle2.
  assert (Hval : val ∈ np_unique chunk_ids).
  { apply elem_of_np_unique. destruct Ht1 as (i & Hi & _).
    apply list_elem_of_lookup. by exists i. }
  apply list_elem_of_lookup in Hval as [k Hk].
  destruct (Forall2_lookup_l _ _ _ _ _ Hlo Hk) as (mn & Hmn & _ & Hfin).
  destruct (Forall2_lookup_l _ _ _ _ _ Hhi Hk) as (mx & Hmx & _ & Hfin').
  destruct (Hfin Hno) as [_ Hlow], (Hfin' Hno) as [_ Hupp].
  apply kept_spec. exists k, mn, mx. split_and!; [done..| |].
  - apply (fle_trans mn t1 t); [by apply Hlow|done].
  - apply (fle_trans t t2 mx); [done|by apply Hupp].
Qed.

(** X8: for two columns of one table (equal lengths) the bounds are
    computed without any exception. There is one pair of bounds per
    distinct chunk id, in increasing order of the ids. For a chunk without
    NaN among its TIMEs the lower bound is a TIME of the chunk that none is
    below and the upper bound a TIME of the chunk that none is above; for a
    chunk with a NaN TIME both bounds are NaN. *)
Theorem chunk_bounds_one_pair_per_chunk chunk_ids mstime :
  length chunk_ids = length mstime →
  ∃ min_times max_times,
    chunk_bounds chunk_ids mstime = Done (min_times, max_times) ∧
    StronglySorted Z.lt (np_unique chunk_ids) ∧
    (∀ val, val ∈ np_unique chunk_ids ↔ val ∈ chunk_ids) ∧
    Forall2 (lower_bound_of chunk_ids mstime) (np_unique chunk_ids) min_times ∧
    Forall2 (upper_bound_of chunk_ids mstime) (np_unique chunk_ids) max_times.
Proof.
  intros Hlen.
  destruct (chunk_bounds_spec chunk_ids mstime Hlen) as (mins & maxs & Hb & Hlo & Hhi).
  exists mins, maxs. split_and!; [done|apply np_unique_sorted| |done|done].
  intros val. apply elem_of_np_unique.
Qed.

Lemma chunk_bounds_one_pair_per_chunk_witness :
  ∃ min_times max_times,
    chunk_bounds ms_chunk_ids ms_times = Done (min_times, max_times) ∧
    StronglySorted Z.lt (np_unique ms_chunk_ids) ∧
    (∀ val, val ∈ np_unique ms_chunk_ids ↔ val ∈ ms_chunk_ids) ∧
    Forall2 (lower_bound_of ms_chunk_ids ms_times) (np_unique ms_chunk_ids) min_times ∧
    Forall2 (upper_bound_of ms_chunk_ids ms_times) (np_unique ms_chunk_ids) max_times.
Proof.
  apply (chunk_bounds_one_pair_per_chunk ms_chunk_ids ms_times). reflexivity.
Defined.

(** X9: the row numbers kept are listed in strictly increasing order, and
    a row number is listed exactly when it is a row of the table whose TIME
    [t] satisfies [min <= t <= max] for the two bounds of some chunk. *)
Theorem keeper_indices_increasing_and_exact min_times max_times (cliptime : list pyfloat) :
  StronglySorted lt (keeper_indices min_times max_times cliptime) ∧
  ∀ i : nat,
    i ∈ keeper_indices min_times max_times cliptime ↔
    ∃ t, cliptime !! i = Some t ∧
         ∃ k mn mx, min_times !! k = Some mn ∧ max_times !! k = Some mx ∧
                    fle mn t = true ∧ fle t mx = true.
Proof.
  split; [apply where_from_sorted|].
  intros i. rewrite elem_of_keeper_indices. split.
  - intros (t & Ht & Hk%kept_spec). by exists t.
  - intros (t & Ht & Hk%kept_spec). by exists t.
Qed.

(** X10: for a measurement set whose two columns have equal lengths there
    is one test on a TIME, fixed by the measurement set alone, such that for
    every table with at least one row the computation raises nothing and
    returns exactly the rows whose TIME passes the test, in their original
    order, none twice and none changed: whether a row is returned depends on
    its TIME alone, not on the other rows nor on the rest of the row. *)
Theorem clip_table_keeps_rows_in_order chunk_ids mstime :
  length chunk_ids = length mstime →
  ∃ test : pyfloat → bool,
    ∀ (A : Type) (time : A → pyfloat) (rows : list A), rows ≠ [] →
      clip_table time chunk_ids mstime rows =
        Done (filter (λ r, test (time r) = true) rows) ∧
      sublist (filter (λ r, test (time r) = true) rows) rows.
Proof.
  intros Hlen.
  destruct (chunk_bounds_spec chunk_ids mstime Hlen) as (mins & maxs & Hb & _).
  exists (kept mins maxs). intros A time rows Hne. split.
  - by apply clip_table_filter.
  - apply sublist_filter.
Qed.

Lemma clip_table_keeps_rows_in_order_witness :
  ∃ test : pyfloat → bool,
    ∀ (A : Type) (time : A → pyfloat) (rows : list A), rows ≠ [] →
      clip_table time ms_chunk_ids ms_times rows =
        Done (filter (λ r, test (time r) = true) rows) ∧
      sublist (filter (λ r, test (time r) = true) rows) rows.
Proof.
  apply (clip_table_keeps_rows_in_order ms_chunk_ids ms_times). reflexivity.
Defined.

(** X11: a row of the table is kept exactly when its TIME lies between the
    TIMEs of two rows of the measurement set that belong to one chunk, a
    chunk none of whose TIMEs is NaN. The two rows may be the same row, and
    the TIME of the table row need not be the TIME of any row of the
    measurement set. *)
Theorem row_kept_iff_between_chunk_times {A} (time : A → pyfloat) chunk_ids mstime
    (rows : list A) :
  length chunk_ids = length mstime → rows ≠ [] →
  ∃ out, clip_table time chunk_ids mstime rows = Done out ∧
    ∀ r, r ∈ out ↔
         r ∈ rows ∧
         ∃ val t1 t2,
           chunk_time chunk_ids mstime val t1 ∧ chunk_time chunk_ids mstime val t2 ∧
           ¬ chunk_time chunk_ids mstime val NaN ∧
           fle t1 (time r) = true ∧ fle (time r) t2 = true.
Proof.
  intros Hlen Hne.
  destruct (chunk_bounds_spec chunk_ids mstime Hlen) as (mins & maxs & Hb & Hlo & Hhi).
  eexists. split; [by apply (clip_table_filter time _ _ _ mins maxs)|].
  intros r. rewrite list_elem_of_filter. split.
  - intros [Hk Hr]. split; [done|]. by eapply kept_between_chunk_times.
  - intros (Hr & val & t1 & t2 & Ht1 & Ht2 & Hno & Hle1 & Hle2). split; [|done].
    exact (between_chunk_times_kept chunk_ids mstime mins maxs val t1 t2 (time r)
             Hlo Hhi Ht1 Ht2 Hno Hle1 Hle2).
Qed.

Lemma row_kept_iff_between_chunk_times_witness :
  ∃ out, clip_table fst ms_chunk_ids ms_times table_rows = Done out ∧
    ∀ r, r ∈ out ↔
         r ∈ table_rows ∧
         ∃ val t1 t2,
           chunk_time ms_chunk_ids ms_times val t1 ∧
           chunk_time ms_chunk_ids ms_times val t2 ∧
           ¬ chunk_time ms_chunk_ids ms_times val NaN ∧
           fle t1 (fst r) = true ∧ fle (fst r) t2 = true.
Proof.
  apply (row_kept_iff_between_chunk_times fst ms_chunk_ids ms_times table_rows).
  - reflexivity.
  - discriminate.
Defined.

(** The table of the example keeps the rows at 10, 10.5, 21 and 30: the
    row at 10.5 lies between the two rows of chunk 0, the row at 15 between
    two chunks. *)
Example clip_table_on_example :
  clip_table fst ms_chunk_ids ms_times table_rows =
  Done [(Fin 10, 1); (Fin (21 # 2), 2); (Fin 21, 4); (Fin 30, 5)]%nat.
Proof. vm_compute. done. Qed.

(** X12: a row of the table taken at the TIME of a row of the measurement
    set is kept, provided no TIME of that row's chunk is NaN. *)
Theorem rows_at_ms_times_are_kept {A} (time : A → pyfloat) chunk_ids mstime
    (rows : list A) r (i : nat) val :
  length chunk_ids = length mstime → r ∈ rows →
  chunk_ids !! i = Some val → mstime !! i = Some (time r) →
  ¬ chunk_time chunk_ids mstime val NaN →
  ∃ out, clip_table time chunk_ids mstime rows = Done out ∧ r ∈ out.
Proof.
  intros Hlen Hr Hi Ht Hno.
  assert (Hne : rows ≠ []) by (intros ->; by apply elem_of_nil in Hr).
  destruct (chunk_bounds_spec chunk_ids mstime Hlen) as (mins & maxs & Hb & Hlo & Hhi).
  eexists. split; [by apply (clip_table_filter time _ _ _ mins maxs)|].
  apply list_elem_of_filter. split; [|done].
  assert (Hc : chunk_time chunk_ids mstime val (time r)) by by exists i.
  assert (Hnn : time r ≠ NaN) by (intros Heq; by rewrite Heq in Hc).
  exact (between_chunk_times_kept chunk_ids mstime mins maxs val (time r) (time r) (time r)
           Hlo Hhi Hc Hc Hno (fle_refl _ Hnn) (fle_refl _ Hnn)).
Qed.

Lemma rows_at_ms_times_are_kept_witness :
  ∃ out, clip_table fst ms_chunk_ids ms_times table_rows = Done out ∧
         (Fin 30, 5%nat) ∈ out.
Proof.
  apply (rows_at_ms_times_are_kept fst ms_chunk_ids ms_times table_rows
           (Fin 30, 5%nat) 0%nat 3).
  - reflexivity.
  - unfold table_rows. do 5 apply list_elem_of_further. apply list_elem_of_here.
  - reflexivity.
  - reflexivity.
  - intros (j & Hj & Ht). unfold ms_chunk_ids, ms_times in *.
    destruct j as [|[|[|[|[|j]]]]]; discriminate.
Defined.

(** X13: a row of the table is dropped when its TIME is NaN, when no TIME
    of the measurement set is at or before it, or when no TIME of the
    measurement set is at or after it. *)
Theorem rows_outside_ms_times_are_dropped {A} (time : A → pyfloat) chunk_ids mstime
    (rows : list A) r :
  length chunk_ids = length mstime → r ∈ rows →
  time r = NaN ∨
  (∀ t, t ∈ mstime → fle t (time r) = false) ∨
  (∀ t, t ∈ mstime → fle (time r) t = false) →
  ∃ out, clip_table time chunk_ids mstime rows = Done out ∧ r ∉ out.
Proof.
  intros Hlen Hr Hout.
  assert (Hne : rows ≠ []) by (intros ->; by apply elem_of_nil in Hr).
  destruct (chunk_bounds_spec chunk_ids mstime Hlen) as (mins & maxs & Hb & Hlo & Hhi).
  eexists. split; [by apply (clip_table_filter time _ _ _ mins maxs)|].
  intros [Hk _]%list_elem_of_filter.
  destruct (kept_between_chunk_times _ _ _ _ _ Hlo Hhi Hk)
    as (val & t1 & t2 & (i1 & _ & Ht1) & (i2 & _ & Ht2) & _ & Hle1 & Hle2).
  destruct Hout as [Hnan|[Hbefore|Hafter]].
  - rewrite Hnan, fle_nan_r in Hle1. done.
  - rewrite Hbefore in Hle1; [done|]. apply list_elem_of_lookup. by exists i1.
  - rewrite Hafter in Hle2; [done|]. apply list_elem_of_lookup. by exists i2.
Qed.

Lemma rows_outside_ms_times_are_dropped_witness :
  ∃ out, clip_table fst ms_chunk_ids ms_times table_rows = Done out ∧
         (Fin 31, 6%nat) ∉ out.
Proof.
  apply (rows_outside_ms_times_are_dropped fst ms_chunk_ids ms_times table_rows
           (Fin 31, 6%nat)).
  - reflexivity.
  - unfold table_rows. do 6 apply list_elem_of_further. apply list_elem_of_here.
  - right. right. intros t Ht. unfold ms_times in Ht.
    repeat (apply elem_of_cons in Ht as [->|Ht]; [reflexivity|]).
    by apply elem_of_nil in Ht.
Defined.

Lemma filter_none {A} (P : A → Prop) `{!∀ x, Decision (P x)} (l : list A) :
  (∀ x, x ∈ l → ¬ P x) → filter P l = [].
Proof.
  induction l as [|x l IH]; intros Hall; [done|].
  rewrite filter_cons, decide_False by (apply Hall, list_elem_of_here).
  apply IH. intros y Hy. by apply Hall, list_elem_of_further.
Qed.

(** X14: when every chunk of the measurement set has a NaN among its
    TIMEs, and in particular when the measurement set has no rows, no row
    of the table is kept: the table that replaces the old one is empty. *)
Theorem nothing_kept_without_nan_free_chunk {A} (time : A → pyfloat) chunk_ids mstime
    (rows : list A) :
  length chunk_ids = length mstime → rows ≠ [] →
  (∀ val, val ∈ chunk_ids → chunk_time chunk_ids mstime val NaN) →
  clip_table time chunk_ids mstime rows = Done [].
Proof.
  intros Hlen Hne Hall.
  destruct (chunk_bounds_spec chunk_ids mstime Hlen) as (mins & maxs & Hb & Hlo & Hhi).
  rewrite (clip_table_filter time _ _ _ mins maxs Hb Hne). f_equal.
  apply filter_none. intros r _ Hk.
  destruct (kept_between_chunk_times _ _ _ _ _ Hlo Hhi Hk)
    as (val & t1 & _ & (i1 & Hi1 & _) & _ & Hno & _).
  apply Hno, Hall, list_elem_of_lookup. by exists i1.
Qed.

Lemma nothing_kept_without_nan_free_chunk_witness :
  clip_table fst [0; 1; 0] [Fin 10; NaN; NaN] table_rows = Done [].
Proof.
  apply (nothing_kept_without_nan_free_chunk fst [0; 1; 0] [Fin 10; NaN; NaN] table_rows).
  - reflexivity.
  - discriminate.
  - intros val Hval.
    apply elem_of_cons in Hval as [->|Hval]; [by exists 2%nat|].
    apply elem_of_cons in Hval as [->|Hval]; [by exists 1%nat|].
    apply elem_of_cons in Hval as [->|Hval]; [by exists 2%nat|].
    by apply elem_of_nil in Hval.
Defined.

(** X15: clipping is idempotent: when the computation returns at least one
    row, running it again on the returned rows, against the same
    measurement set, returns the same rows. *)
Theorem clip_table_idempotent {A} (time : A → pyfloat) chunk_ids mstime
    (rows out : list A) :
  length chunk_ids = length mstime →
  clip_table time chunk_ids mstime rows = Done out → out ≠ [] →
  clip_table time chunk_ids mstime out = Done out.
Proof.
  intros Hlen Hclip Hout.
  destruct (chunk_bounds_spec chunk_ids mstime Hlen) as (mins & maxs & Hb & _).
  assert (Hne : rows ≠ []).
  { intros ->. unfold clip_table in Hclip. rewrite Hb in Hclip. done. }
  rewrite (clip_table_filter time _ _ _ mins maxs Hb Hne) in Hclip.
  injection Hclip as <-.
  rewrite (clip_table_filter time _ _ _ mins maxs Hb Hout). f_equal.
  by apply list_filter_filter_l.
Qed.

Lemma clip_table_idempotent_witness :
  clip_table fst ms_chunk_ids ms_times
    [(Fin 10, 1); (Fin (21 # 2), 2); (Fin 21, 4); (Fin 30, 5)]%nat =
  Done [(Fin 10, 1); (Fin (21 # 2), 2); (Fin 21, 4); (Fin 30, 5)]%nat.
Proof.
  apply (clip_table_idempotent fst ms_chunk_ids ms_times table_rows).
  - reflexivity.
  - vm_compute. reflexivity.
  - discriminate.
Defined.
